(** * MAE calculator: agreement scores between AI and human analysts

    A shallow embedding of [mae_calculator.py] and the properties of its
    three entry points [calculate_mae], [interpret_mae] and
    [calculate_batch_mae], followed by its report [print_mae_report] and by
    the parts of the dashboard [mae_app.py] that call the calculator.

    Python values are modelled as the interpreter has them:
    - [int] is unbounded, hence [Z];
    - [float] is IEEE 754 binary64 with round-to-nearest-even, hence
      [spec_float] at precision 53 and maximal exponent 1024;
    - [dict] keeps insertion order and has unique keys, hence an association
      list, iterated front to back;
    - an exception is an explicit error result. *)

From Stdlib Require Import ZArith QArith Qpower Lqa SpecFloat Zpower.
From Stdlib Require Import DecimalString DecimalPos DecimalFacts.
From stdpp Require Import base list strings gmap.

Local Open Scope Z_scope.

(** ** Binary64 floating point *)

Module Binary64.

Definition prec : Z := 53.
Definition emax : Z := 1024.

Definition float : Type := spec_float.

(** Correctly rounded value of the integer [z] (an infinity on overflow). *)
Definition of_Z (z : Z) : float := binary_normalize prec emax z 0 false.

Definition add : float -> float -> float := SFadd prec emax.
Definition div : float -> float -> float := SFdiv prec emax.
Definition ltb : float -> float -> bool := SFltb.
Definition leb : float -> float -> bool := SFleb.
Definition eqb : float -> float -> bool := SFeqb.

(** A decimal literal [n/d] of the source text, correctly rounded. *)
Definition literal (n d : Z) : float := div (of_Z n) (of_Z d).

(** The well-formed binary64 values. *)
Definition valid (x : float) : bool := valid_binary prec emax x.

(** The rational denoted by a zero or a finite float. *)
Definition to_Q (x : float) : option Q :=
  match x with
  | S754_zero _ => Some 0%Q
  | S754_finite s m e =>
      Some (inject_Z (if s then Zneg m else Zpos m) * 2 ^ e)%Q
  | _ => None
  end.

End Binary64.

Import Binary64.

(** ** Python values and exceptions *)

Inductive exn : Type :=
| ValueError (msg : string)
| KeyError (key : string)
| OverflowError
| ZeroDivisionError.

Inductive result (A : Type) : Type :=
| Ok (a : A)
| Raise (e : exn).
Arguments Ok {A} a.
Arguments Raise {A} e.

#[global] Instance result_ret : MRet result := fun A a => Ok a.
#[global] Instance result_bind : MBind result := fun A B f m =>
  match m with
  | Ok a => f a
  | Raise e => Raise e
  end.

(** The least positive integer that rounds to the infinity. *)
Definition FLOAT_OVERFLOW : Z := 2 ^ 1024 - 2 ^ 970.

(** [float(z)] for an [int]: the conversion raises where rounding would
    give an infinity. *)
Definition py_float (z : Z) : result float :=
  match of_Z z with
  | S754_infinity _ => Raise OverflowError
  | x => Ok x
  end.

(** [x + z] and [x / z] for a [float] and an [int]: the [int] is converted
    first; float addition itself never raises. *)
Definition float_add_int (x : float) (z : Z) : result float :=
  y ← py_float z; Ok (add x y).

Definition float_truediv_int (x : float) (z : Z) : result float :=
  y ← py_float z;
  match y with
  | S754_zero _ => Raise ZeroDivisionError
  | _ => Ok (div x y)
  end.

(** [sum(xs)] of floats as additions from the start value [0], left to
    right. *)
Definition left_sum (xs : list float) : float := foldl add (of_Z 0) xs.

(** The largest size of a container, [sys.maxsize] of a 64-bit build. *)
Definition PY_SSIZE_T_MAX : Z := 2 ^ 63 - 1.

(** *** Dictionaries with [str] keys and [int] values *)

Definition dict : Type := list (string * Z).

Definition keys (d : dict) : list string := d.*1.

Definition len {A} (l : list A) : Z := Z.of_nat (length l).

Fixpoint dict_get (d : dict) (k : string) : option Z :=
  match d with
  | [] => None
  | (k', v) :: d' => if decide (k' = k) then Some v else dict_get d' k
  end.

(** [d[k]] *)
Definition dict_getitem (d : dict) (k : string) : result Z :=
  match dict_get d k with
  | Some v => Ok v
  | None => Raise (KeyError k)
  end.

(** [d[k] = v]: overwrite in place, or append a new entry. *)
Fixpoint dict_setitem (d : dict) (k : string) (v : Z) : dict :=
  match d with
  | [] => [(k, v)]
  | (k', v') :: d' =>
      if decide (k' = k) then (k', v) :: d' else (k', v') :: dict_setitem d' k v
  end.

(** [set(d.keys())] *)
Definition key_set (d : dict) : gset string := list_to_set (keys d).

(** What the interpreter guarantees of a [dict]: no key twice, and a size
    that fits [Py_ssize_t]. *)
Definition wf_dict (d : dict) : Prop :=
  NoDup (keys d) /\ len d <= PY_SSIZE_T_MAX.

(** *** Format specifications of f-strings

    A [str] is a [string] whose characters are code points below 256. *)

(** [s * n] *)
Fixpoint str_mul (s : string) (n : nat) : string :=
  match n with
  | O => ""
  | S n' => s +:+ str_mul s n'
  end.

(** [format(s, '<w')] and [format(s, '>w')]: pad with spaces to the width
    [w]; a longer text is kept whole. *)
Definition ljust (w : nat) (s : string) : string :=
  s +:+ str_mul " " (w - String.length s).
Definition rjust (w : nat) (s : string) : string :=
  str_mul " " (w - String.length s) +:+ s.

(** The decimal digits of an integer, with its sign. *)
Definition int_str (z : Z) : string := NilZero.string_of_int (Z.to_int z).

(** [sys.int_info.default_max_str_digits]: the most digits an [int] may
    have when it is turned into decimal text. *)
Definition MAX_STR_DIGITS : Z := 4300.

Definition STR_DIGITS_LIMIT : string :=
  "Exceeds the limit (4300 digits) for integer string conversion; " +:+
  "use sys.set_int_max_str_digits() to increase the limit".

(** [format(z, '')] of an [int], the text that [format(z, '>w')] pads:
    [str(z)], which raises for an [int] of more than [MAX_STR_DIGITS]
    digits. *)
Definition int_format (z : Z) : result string :=
  if decide (Z.abs z < 10 ^ MAX_STR_DIGITS) then Ok (int_str z)
  else Raise (ValueError STR_DIGITS_LIMIT).

(** The integer nearest to [n / d], a tie going to the even one. *)
Definition round_half_even (n d : Z) : Z :=
  let q := n / d in
  match 2 * (n mod d) ?= d with
  | Lt => q
  | Eq => if Z.even q then q else q + 1
  | Gt => q + 1
  end.

(** The decimal text of [c / 10 ^ p] with [p] digits after the point, for
    [c >= 0]. *)
Definition fixed_point (p : nat) (c : Z) : string :=
  let digits := int_str c in
  let digits := str_mul "0" (S p - String.length digits) +:+ digits in
  let n := String.length digits in
  match p with
  | O => digits
  | _ =>
      String.substring 0 (n - p) digits +:+ "." +:+
      String.substring (n - p) p digits
  end.

(** [format(x, '.pf')]: the exact value of [x], correctly rounded to [p]
    decimals. *)
Definition float_fixed (p : nat) (x : float) : string :=
  match x with
  | S754_nan => "nan"
  | S754_infinity s => (if s then "-" else "") +:+ "inf"
  | S754_zero s => (if s then "-" else "") +:+ fixed_point p 0
  | S754_finite s m e =>
      let n := Zpos m * 10 ^ Z.of_nat p in
      let c := if 0 <=? e then n * 2 ^ e else round_half_even n (2 ^ (- e)) in
      (if s then "-" else "") +:+ fixed_point p c
  end.

(** *** Standard output *)

(** The texts [print] was called with, in order. A computation writes to
    it, and returns or raises. *)
Definition stdout : Type := list string.
Definition io (A : Type) : Type := stdout -> stdout * result A.

#[global] Instance io_ret : MRet io := fun A a out => (out, Ok a).
#[global] Instance io_bind : MBind io := fun A B f m out =>
  match m out with
  | (out', Ok a) => f a out'
  | (out', Raise e) => (out', Raise e)
  end.

Definition print (s : string) : io unit := fun out => (out ++ [s], Ok tt).
Definition lift {A} (r : result A) : io A := fun out => (out, r).

(** The line feed. *)
Definition LF : string := String (Ascii.ascii_of_nat 10) "".

(** [format(z, '.pf')] of an [int]: the [int] is converted to [float]. *)
Definition int_fixed (p : nat) (z : Z) : result string :=
  x ← py_float z; Ok (float_fixed p x).

(** ** mae_calculator.py *)

Record MAEResult : Type := mkMAEResult {
  mae : float;
  total_difference : float;
  num_kpis : Z;
  kpi_differences : dict;
  interpretation : string
}.

Definition EXCELLENT : string := "Excellent (matches human analyst very closely)".
Definition GOOD : string := "Good (production-ready)".
Definition ACCEPTABLE : string := "Acceptable (needs minor calibration)".
Definition POOR : string := "Poor (needs major fixes)".

(** The literals [0.50], [0.75], [1.00] and [0.0]. *)
Definition lit_0_50 : float := Eval vm_compute in literal 50 100.
Definition lit_0_75 : float := Eval vm_compute in literal 75 100.
Definition lit_1_00 : float := Eval vm_compute in literal 100 100.
Definition lit_0_0 : float := Eval vm_compute in literal 0 10.

Definition interpret_mae (mae : float) : string :=
  if ltb mae lit_0_50 then EXCELLENT
  else if ltb mae lit_0_75 then GOOD
  else if ltb mae lit_1_00 then ACCEPTABLE
  else POOR.

Definition MISMATCH : string := "AI and human scores must have the same KPIs".

(** The body of [for kpi in ai_scores.keys()], threaded over the pair
    [(kpi_differences, total_difference)]. *)
Fixpoint mae_loop (ai_scores human_scores : dict) (ks : list string)
    (st : dict * float) : result (dict * float) :=
  match ks with
  | [] => Ok st
  | kpi :: ks' =>
      a ← dict_getitem ai_scores kpi;
      h ← dict_getitem human_scores kpi;
      let diff := Z.abs (a - h) in
      let kpi_differences := dict_setitem st.1 kpi diff in
      total_difference ← float_add_int st.2 diff;
      mae_loop ai_scores human_scores ks' (kpi_differences, total_difference)
  end.

Definition calculate_mae (ai_scores human_scores : dict) : result MAEResult :=
  if decide (key_set ai_scores ≠ key_set human_scores)
  then Raise (ValueError MISMATCH)
  else
    st ← mae_loop ai_scores human_scores (keys ai_scores) ([], lit_0_0);
    let num_kpis := len ai_scores in
    mae ← (if decide (num_kpis > 0)
           then float_truediv_int st.2 num_kpis
           else Ok lit_0_0);
    let interpretation := interpret_mae mae in
    Ok (mkMAEResult mae st.2 num_kpis st.1 interpretation).

(** An element of [chats]:
    [{'chat_id': .., 'ai_scores': .., 'human_scores': ..}]. *)
Record chat : Type := mkChat {
  chat_id : string;
  ai_scores : dict;
  human_scores : dict
}.

(** The body of [for chat in chats], threaded over [results]. *)
Fixpoint batch_loop (chats : list chat) (results : list MAEResult)
    : result (list MAEResult) :=
  match chats with
  | [] => Ok results
  | c :: chats' =>
      r ← calculate_mae (ai_scores c) (human_scores c);
      batch_loop chats' (results ++ [r])
  end.

Section Builtin.

(** The builtin [sum] on a list of floats. It returns a float and raises
    nothing, but how it rounds is the interpreter's choice: [left_sum] up
    to CPython 3.11, a compensated summation from 3.12 on. It is therefore
    a parameter. *)
Variable py_sum : list float -> float.

Definition calculate_batch_mae (chats : list chat)
    : result (float * list MAEResult) :=
  results ← batch_loop chats [];
  avg_mae ← (match results with
             | [] => Ok lit_0_0
             | _ => float_truediv_int (py_sum (mae <$> results)) (len results)
             end);
  Ok (avg_mae, results).

End Builtin.

(** *** The report *)

(** The body of [for kpi in ai_scores.keys()] of [print_mae_report]. *)
Fixpoint report_loop (result : MAEResult) (ai_scores human_scores : dict)
    (ks : list string) : io unit :=
  match ks with
  | [] => mret tt
  | kpi :: ks' =>
      ai ← lift (dict_getitem ai_scores kpi);
      human ← lift (dict_getitem human_scores kpi);
      diff ← lift (dict_getitem (kpi_differences result) kpi);
      ai_text ← lift (int_format ai);
      human_text ← lift (int_format human);
      diff_text ← lift (int_fixed 0 diff);
      print (ljust 25 kpi +:+ " " +:+ rjust 5 ai_text +:+ " " +:+
             rjust 7 human_text +:+ " " +:+ rjust 8 diff_text);;
      report_loop result ai_scores human_scores ks'
  end.

Definition print_mae_report (chat_id : string) (result : MAEResult)
    (ai_scores human_scores : dict) : io unit :=
  print (LF +:+ str_mul "=" 70);;
  print ("MAE REPORT - ChatID: " +:+ chat_id);;
  print (str_mul "=" 70);;
  print (LF +:+ ljust 25 "KPI" +:+ " " +:+ rjust 5 "AI" +:+ " " +:+
         rjust 7 "Human" +:+ " " +:+ rjust 8 "|Diff|");;
  print (str_mul "-" 70);;
  report_loop result ai_scores human_scores (keys ai_scores);;
  print (str_mul "-" 70);;
  print (ljust 25 "Sum of differences:" +:+ " " +:+
         rjust 21 (float_fixed 0 (total_difference result)));;
  num_kpis_text ← lift (int_format (num_kpis result));
  print (ljust 25 "Number of KPIs:" +:+ " " +:+ rjust 21 num_kpis_text);;
  print (LF +:+ ljust 25 "MAE:" +:+ " " +:+
         rjust 21 (float_fixed 2 (mae result)));;
  print (ljust 25 "Interpretation:" +:+ " " +:+ interpretation result);;
  print (str_mul "=" 70 +:+ LF).

(** ** mae_app.py *)

Definition KPIS : list string :=
  ["IssueIdentification"; "ResolutionCompliance"; "Clarity"; "Retention";
   "Sentiment"; "CustomerCentricity"].

Definition get_mae_color_class (mae : float) : string :=
  if ltb mae lit_0_50 then "excellent"
  else if ltb mae lit_0_75 then "good"
  else if ltb mae lit_1_00 then "acceptable"
  else "poor".

(** *** Single Chat mode *)

(** [for kpi in KPIS: scores[kpi] = st.slider(..)] from the empty dict,
    the slider of [kpi] standing at [slider kpi]. *)
Definition slider_scores (slider : string -> Z) : dict :=
  foldl (fun scores kpi => dict_setitem scores kpi (slider kpi)) [] KPIS.

(** A row of the KPI breakdown. *)
Record breakdown_row : Type := mkBreakdownRow {
  row_kpi : string;
  row_ai_score : Z;
  row_human_score : Z;
  row_difference : Z;
  row_match : bool
}.

(** The body of [for kpi in KPIS] that fills [df_data]; the column Match
    holds one mark when the difference is 0 and another when it is not,
    here [true] and [false]. *)
Fixpoint breakdown_loop (ai_scores human_scores : dict) (res : MAEResult)
    (kpis : list string) (df_data : list breakdown_row)
    : result (list breakdown_row) :=
  match kpis with
  | [] => Ok df_data
  | kpi :: kpis' =>
      ai ← dict_getitem ai_scores kpi;
      human ← dict_getitem human_scores kpi;
      difference ← dict_getitem (kpi_differences res) kpi;
      difference' ← dict_getitem (kpi_differences res) kpi;
      breakdown_loop ai_scores human_scores res kpis'
        (df_data ++
         [mkBreakdownRow kpi ai human difference
            (bool_decide (difference' = 0))])
  end.

(** What the mode shows once the button is pressed: the three metrics, the
    style class of the label and the breakdown. *)
Record single_chat_results : Type := mkSingleChatResults {
  mae_score : string;
  total_difference_metric : string;
  shown_interpretation : string;
  mae_class : string;
  kpi_breakdown : list breakdown_row
}.

Definition single_chat (ai_slider human_slider : string -> Z)
    : result single_chat_results :=
  let ai_scores := slider_scores ai_slider in
  let human_scores := slider_scores human_slider in
  result ← calculate_mae ai_scores human_scores;
  let mae_class := get_mae_color_class (mae result) in
  df_data ← breakdown_loop ai_scores human_scores result KPIS [];
  Ok (mkSingleChatResults (float_fixed 2 (mae result))
        (float_fixed 0 (total_difference result))
        (interpretation result) mae_class df_data).

(** *** Batch Upload mode *)

(** A row of the uploaded table, through the conversions of the source:
    [str(row['chat_id'])], and [int(row[c])] for a column [c]. *)
Record csv_row : Type := mkCsvRow {
  row_chat_id : string;
  row_int : string -> Z
}.

(** The body of [for _, row in df.iterrows()]: the record of one row. *)
Definition row_chat (row : csv_row) : chat :=
  mkChat (row_chat_id row)
    [("IssueIdentification", row_int row "ai_IssueIdentification");
     ("ResolutionCompliance", row_int row "ai_ResolutionCompliance");
     ("Clarity", row_int row "ai_Clarity");
     ("Retention", row_int row "ai_Retention");
     ("Sentiment", row_int row "ai_Sentiment");
     ("CustomerCentricity", row_int row "ai_CustomerCentricity")]
    [("IssueIdentification", row_int row "human_IssueIdentification");
     ("ResolutionCompliance", row_int row "human_ResolutionCompliance");
     ("Clarity", row_int row "human_Clarity");
     ("Retention", row_int row "human_Retention");
     ("Sentiment", row_int row "human_Sentiment");
     ("CustomerCentricity", row_int row "human_CustomerCentricity")].

(** A row of the table Individual Chat Results. *)
Record results_row : Type := mkResultsRow {
  results_chat_id : string;
  results_mae : string;
  results_total_diff : float;
  results_interpretation : string
}.

(** What the mode shows: the average, the number of chats, the label of
    the average with its style class, and the table. *)
Record batch_results : Type := mkBatchResults {
  average_mae : string;
  total_chats : Z;
  average_interpretation : string;
  average_class : string;
  results_data : list results_row
}.

Section BatchUpload.

Variable py_sum : list float -> float.

Definition batch_upload (df : list csv_row) : result batch_results :=
  let chats := row_chat <$> df in
  '(avg_mae, results) ← calculate_batch_mae py_sum chats;
  let mae_class := get_mae_color_class avg_mae in
  let results_data :=
    (fun cr : chat * MAEResult =>
       mkResultsRow (chat_id cr.1) (float_fixed 2 (mae cr.2))
         (total_difference cr.2) (interpretation cr.2)) <$> zip chats results in
  Ok (mkBatchResults (float_fixed 2 avg_mae) (len chats)
        (interpret_mae avg_mae) mae_class results_data).

End BatchUpload.

(** ** Vocabulary of the specification *)

(** [d[k]], for a key that [d] has. *)
Definition score (d : dict) (k : string) : Z := default 0 (dict_get d k).

(** [|a[k] - b[k]|] *)
Definition abs_diff (a b : dict) (k : string) : Z :=
  Z.abs (score a k - score b k).

Definition sum_Z (l : list Z) : Z := foldr Z.add 0 l.

(** The sum over the keys [k] of [a] of [|a[k] - b[k]|], an integer. *)
Definition sum_abs_diff (a b : dict) : Z := sum_Z (abs_diff a b <$> keys a).

(** Every [|a[k] - b[k]|] converts to [float]: it is below
    [FLOAT_OVERFLOW]. *)
Definition in_float_range (a b : dict) : Prop :=
  forall k, k ∈ keys a -> abs_diff a b k < FLOAT_OVERFLOW.

(** The float [x] denotes exactly the integer [n]. *)
Definition represents (x : float) (n : Z) : Prop :=
  exists q, to_Q x = Some q /\ (q == inject_Z n)%Q.

(** [+0.0], a positive finite float or [+inf]: neither negative nor NaN. *)
Definition nonnegative (x : float) : bool :=
  match x with
  | S754_zero false | S754_finite false _ _ | S754_infinity false => true
  | _ => false
  end.

(** Smaller is better: Excellent, Good, Acceptable, Poor. *)
Definition tier_rank (label : string) : nat :=
  if decide (label = EXCELLENT) then 0
  else if decide (label = GOOD) then 1
  else if decide (label = ACCEPTABLE) then 2
  else 3.

(** [calculate_mae] returns [r] on the record [c]. *)
Definition compares_to (c : chat) (r : MAEResult) : Prop :=
  calculate_mae (ai_scores c) (human_scores c) = Ok r.

(** A record whose two dicts have the same keys and differences that
    convert to [float]. *)
Definition comparable (c : chat) : Prop :=
  wf_dict (ai_scores c) /\
  key_set (ai_scores c) = key_set (human_scores c) /\
  in_float_range (ai_scores c) (human_scores c).

(** Index of the first record whose two dicts differ in their keys. *)
Definition first_mismatch (chats : list chat) : option nat :=
  fst <$>
    list_find (fun c => key_set (ai_scores c) ≠ key_set (human_scores c)) chats.

(** *** Sample inputs *)

(** The dicts of the module's own example, chat 27811316. *)
Definition example_ai : dict :=
  [("IssueIdentification", 4); ("ResolutionCompliance", 3); ("Clarity", 2);
   ("Retention", 2); ("Sentiment", 3); ("CustomerCentricity", 4)].
Definition example_human : dict :=
  [("IssueIdentification", 4); ("ResolutionCompliance", 3); ("Clarity", 2);
   ("Retention", 2); ("Sentiment", 4); ("CustomerCentricity", 3)].

Definition other_ai : dict := [("Tone", 5)].
Definition other_human : dict := [("Tone", 3)].
Definition bad_human : dict := [("Clarity", 2)].

Definition rounding_ai : dict := [("x", 2 ^ 53); ("y", 1)].
Definition rounding_human : dict := [("x", 0); ("y", 0)].
Definition order_ai : dict := [("x", 2 ^ 53); ("y", 1); ("z", 1)].
Definition order_human : dict := [("z", 0); ("y", 0); ("x", 0)].
Definition huge_ai : dict := [("Clarity", 2 ^ 1024)].
Definition huge_human : dict := [("Clarity", 0)].
Definition overflow_ai : dict := [("Clarity", 2 ^ 1024); ("Sentiment", 3)].
Definition overflow_human : dict := [("Sentiment", 4); ("Clarity", 0)].

Definition example_chat : chat := mkChat "27811316" example_ai example_human.
Definition other_chat : chat := mkChat "27811317" other_ai other_human.
Definition huge_chat : chat := mkChat "27811318" huge_ai huge_human.
Definition bad_chat : chat := mkChat "27811319" example_ai bad_human.
Definition bad_chat' : chat := mkChat "27811320" other_ai bad_human.

(** ** Auxiliary notions of the proofs *)

(** A shift register with no bit lost. *)
Definition exact (m : Z) : shr_record := Build_shr_record m false false.

(** [S754_finite false c e] is the binary64 form of the integer [N],
    for [N] up to [2 ^ 53]. *)
Definition canon (N : Z) (c : positive) (e : Z) : Prop :=
  Zdigits2 (Zpos c) = 53 /\ -52 <= e <= 1 /\ Zpos c * 2 ^ (e + 52) = N * 2 ^ 52.

(** A float as a multiple of [2 ^ -1074], the least positive binary64. *)
Definition scaled (x : float) : Z :=
  match x with
  | S754_finite s m e => (if s then Zneg m else Zpos m) * 2 ^ (e + 1074)
  | _ => 0
  end.

Definition is_real (x : float) : bool :=
  match x with S754_zero _ | S754_finite _ _ _ => true | _ => false end.

(** The two components of the loop state after the keys [ks]. *)
Definition diffs_after (a b : dict) (d : dict) (ks : list string) : dict :=
  foldl (fun d k => dict_setitem d k (abs_diff a b k)) d ks.

Definition total_after (a b : dict) (t : float) (ks : list string) : float :=
  foldl (fun t k => add t (of_Z (abs_diff a b k))) t ks.

(** The value [calculate_mae] returns when it returns. *)
Definition mae_of (t : float) (n : Z) : float :=
  if decide (n > 0) then div t (of_Z n) else lit_0_0.

Definition mae_result (a b : dict) : MAEResult :=
  let t := total_after a b lit_0_0 (keys a) in
  let m := mae_of t (len a) in
  mkMAEResult m t (len a) (diffs_after a b [] (keys a)) (interpret_mae m).

Definition batch_average (py_sum : list float -> float)
    (rs : list MAEResult) : float :=
  match rs with
  | [] => lit_0_0
  | _ => div (py_sum (mae <$> rs)) (of_Z (len rs))
  end.

(** The tier of the exact mean [s / n], for [n > 0]. *)
Definition exact_tier (s n : Z) : string :=
  if decide (2 * s < n) then EXCELLENT
  else if decide (4 * s < 3 * n) then GOOD
  else if decide (s < n) then ACCEPTABLE
  else POOR.

(** A line of the table of [print_mae_report]. *)
Definition report_line (kpi : string) (ai human : Z) (diff : float) : string :=
  ljust 25 kpi +:+ " " +:+ rjust 5 (int_str ai) +:+ " " +:+
  rjust 7 (int_str human) +:+ " " +:+ rjust 8 (float_fixed 0 diff).

(** The key [k] is in the three dicts of the report, with a difference that
    converts to [float]. *)
Definition has_difference (result : MAEResult) (ai_scores human_scores : dict)
    (k : string) : Prop :=
  k ∈ keys ai_scores /\ k ∈ keys human_scores /\
  exists d x, dict_get (kpi_differences result) k = Some d /\ py_float d = Ok x.

(** [str(z)] stays within the limit of digits. *)
Definition printable (z : Z) : Prop := Z.abs z < 10 ^ MAX_STR_DIGITS.

(** The report can print its line of the key [k]. *)
Definition reportable (result : MAEResult) (ai_scores human_scores : dict)
    (k : string) : Prop :=
  has_difference result ai_scores human_scores k /\
  printable (score ai_scores k) /\ printable (score human_scores k).

(** What [print_mae_report] prints before and after the table. *)
Definition report_header (chat_id : string) : list string :=
  [LF +:+ str_mul "=" 70;
   "MAE REPORT - ChatID: " +:+ chat_id;
   str_mul "=" 70;
   LF +:+ ljust 25 "KPI" +:+ " " +:+ rjust 5 "AI" +:+ " " +:+
     rjust 7 "Human" +:+ " " +:+ rjust 8 "|Diff|";
   str_mul "-" 70].

Definition report_footer (result : MAEResult) : list string :=
  [str_mul "-" 70;
   ljust 25 "Sum of differences:" +:+ " " +:+
     rjust 21 (float_fixed 0 (total_difference result));
   ljust 25 "Number of KPIs:" +:+ " " +:+ rjust 21 (int_str (num_kpis result));
   LF +:+ ljust 25 "MAE:" +:+ " " +:+ rjust 21 (float_fixed 2 (mae result));
   ljust 25 "Interpretation:" +:+ " " +:+ interpretation result;
   str_mul "=" 70 +:+ LF].

(** Two scores of more than 4300 digits, one apart. *)
Definition long_ai : dict := [("x", 10 ^ 4400)].
Definition long_human : dict := [("x", 10 ^ 4400 + 1)].

(** The location [l] tells where the fraction [r / m] lies in [0, 1). *)
Definition locates (l : location) (r m : Z) : Prop :=
  match l with
  | loc_Exact => r = 0
  | loc_Inexact Lt => 0 < 2 * r < m
  | loc_Inexact Eq => 2 * r = m
  | loc_Inexact Gt => m < 2 * r
  end.

(** Case analysis on every comparison of exponents and mantissas. *)
Ltac compare_cases :=
  repeat match goal with
  | H : context [Pos.compare_cont Eq ?a ?b] |- _ =>
      change (Pos.compare_cont Eq a b) with (Pos.compare a b) in H
  | |- context [Pos.compare_cont Eq ?a ?b] =>
      change (Pos.compare_cont Eq a b) with (Pos.compare a b)
  | H : context [Z.compare ?a ?b] |- _ =>
      destruct (Z.compare_spec a b); simpl in H
  | H : context [Pos.compare ?a ?b] |- _ =>
      destruct (Pos.compare_spec a b); simpl in H
  | |- context [Z.compare ?a ?b] => destruct (Z.compare_spec a b); simpl
  | |- context [Pos.compare ?a ?b] => destruct (Pos.compare_spec a b); simpl
  end.

(** ** Facts about binary64 *)

(** Binary digits of an integer. *)
Section Digits.

Lemma digits2_pos_size (p : positive) : digits2_pos p = Pos.size p.
Proof. induction p as [p IH|p IH|]; simpl; by rewrite ?IH. Qed.

Lemma Zdigits2_log2 (n : Z) : 0 < n -> Zdigits2 n = Z.log2 n + 1.
Proof.
  destruct n as [|p|p]; try lia. intros _.
  destruct p as [p|p|]; simpl; rewrite ?digits2_pos_size; lia.
Qed.

Lemma Zdigits2_mul_pow2 (n k : Z) :
  0 < n -> 0 <= k -> Zdigits2 (n * 2 ^ k) = Zdigits2 n + k.
Proof.
  intros Hn Hk.
  rewrite !Zdigits2_log2
    by (try apply Z.mul_pos_pos; try apply Z.pow_pos_nonneg; lia).
  rewrite Z.log2_mul_pow2 by lia. lia.
Qed.

Lemma Zdigits2_bounds (n d : Z) :
  0 < d -> 2 ^ (d - 1) <= n < 2 ^ d -> Zdigits2 n = d.
Proof.
  intros Hd Hn.
  assert (0 < n) by (pose proof (Z.pow_pos_nonneg 2 (d - 1)); lia).
  rewrite Zdigits2_log2 by done.
  rewrite (Z.log2_unique n (d - 1)); [lia | lia |].
  unfold Z.succ. by replace (d - 1 + 1) with d by lia.
Qed.

Lemma Zdigits2_spec (n : Z) :
  0 < n -> 2 ^ (Zdigits2 n - 1) <= n < 2 ^ Zdigits2 n.
Proof.
  intros Hn. rewrite Zdigits2_log2 by done.
  replace (Z.log2 n + 1 - 1) with (Z.log2 n) by lia.
  pose proof (Z.log2_spec n Hn) as H. by rewrite <- Z.add_1_r in H.
Qed.

Lemma iter_xO_pow2 (m d : positive) :
  Zpos (Pos.iter xO m d) = Zpos m * 2 ^ Zpos d.
Proof.
  pose proof (shift_pos_correct d m) as H. unfold shift_pos in H.
  rewrite H. change (Z.pow_pos 2 d) with (2 ^ Z.pos d). apply Z.mul_comm.
Qed.

End Digits.

(** A right shift keeps the quotient, and loses nothing on a multiple of the
    power of two. *)
Section Shift.

Lemma iter_pos_xI {A} (f : A -> A) k x :
  SpecFloat.iter_pos f k~1 x =
    SpecFloat.iter_pos f k (SpecFloat.iter_pos f k (f x)).
Proof. done. Qed.

Lemma iter_pos_xO {A} (f : A -> A) k x :
  SpecFloat.iter_pos f k~0 x = SpecFloat.iter_pos f k (SpecFloat.iter_pos f k x).
Proof. done. Qed.

Lemma shr_1_exact (m : Z) : 0 <= m -> shr_1 (exact (m * 2)) = exact m.
Proof.
  intros Hm. rewrite Z.mul_comm. by destruct m as [|p|p]; [| |lia].
Qed.

Lemma pow2_xI (k : positive) : 2 ^ Zpos k~1 = 2 ^ Zpos k * 2 ^ Zpos k * 2.
Proof.
  replace (Zpos k~1) with (Zpos k + Zpos k + 1) by lia.
  rewrite !Z.pow_add_r by lia. by rewrite Z.pow_1_r.
Qed.

Lemma pow2_xO (k : positive) : 2 ^ Zpos k~0 = 2 ^ Zpos k * 2 ^ Zpos k.
Proof.
  replace (Zpos k~0) with (Zpos k + Zpos k) by lia.
  by rewrite !Z.pow_add_r by lia.
Qed.

Lemma iter_shr_1_exact (k : positive) (m : Z) :
  0 <= m -> SpecFloat.iter_pos shr_1 k (exact (m * 2 ^ Zpos k)) = exact m.
Proof.
  revert m. induction k as [k IH|k IH|]; intros m Hm.
  - rewrite iter_pos_xI, pow2_xI, !Z.mul_assoc.
    rewrite shr_1_exact, IH, IH; [done | lia ..].
  - rewrite iter_pos_xO, pow2_xO, !Z.mul_assoc.
    rewrite IH, IH; [done | lia ..].
  - rewrite Z.pow_1_r. by apply shr_1_exact.
Qed.

Lemma shr_1_m (r : shr_record) : 0 <= shr_m r -> shr_m (shr_1 r) = shr_m r / 2.
Proof.
  destruct r as [m r s]; simpl. intros Hm.
  destruct m as [|[p|p|]|p]; simpl; try done; try lia.
  - rewrite Pos2Z.inj_xI. apply Z.div_unique with 1; lia.
  - rewrite Pos2Z.inj_xO. apply Z.div_unique with 0; lia.
Qed.

Lemma iter_shr_1_m (k : positive) (r : shr_record) :
  0 <= shr_m r -> shr_m (SpecFloat.iter_pos shr_1 k r) = shr_m r / 2 ^ Zpos k.
Proof.
  assert (Hpow : forall p, 0 < 2 ^ Zpos p) by (intros; by apply Z.pow_pos_nonneg).
  revert r. induction k as [k IH|k IH|]; intros r Hr.
  - rewrite iter_pos_xI, pow2_xI.
    assert (H1 : 0 <= shr_m (shr_1 r))
      by (rewrite shr_1_m by done; by apply Z.div_pos).
    assert (H2 : 0 <= shr_m (SpecFloat.iter_pos shr_1 k (shr_1 r)))
      by (rewrite IH by done; by apply Z.div_pos).
    rewrite IH, IH, shr_1_m by done.
    rewrite !Z.div_div by (auto with lia). f_equal. ring.
  - rewrite iter_pos_xO, pow2_xO.
    assert (H2 : 0 <= shr_m (SpecFloat.iter_pos shr_1 k r))
      by (rewrite IH by done; by apply Z.div_pos).
    rewrite IH, IH by done.
    by rewrite !Z.div_div by (auto with lia).
  - rewrite Z.pow_1_r. by apply shr_1_m.
Qed.

Lemma shr_1_r (r : shr_record) :
  0 <= shr_m r -> shr_r (shr_1 r) = Z.odd (shr_m r).
Proof. destruct r as [[|[p|p|]|p] r s]; simpl; done || lia. Qed.

Lemma iter_shr_1_nonneg (k : positive) (r : shr_record) :
  0 <= shr_m r -> 0 <= shr_m (SpecFloat.iter_pos shr_1 k r).
Proof.
  intros Hr. rewrite iter_shr_1_m by done.
  apply Z.div_pos; [done | by apply Z.pow_pos_nonneg].
Qed.

Lemma iter_shr_1_r (k : positive) (r : shr_record) :
  0 <= shr_m r ->
  shr_r (SpecFloat.iter_pos shr_1 k r) = Z.testbit (shr_m r) (Zpos k - 1).
Proof.
  revert r. induction k as [k IH|k IH|]; intros r Hr.
  - rewrite iter_pos_xI.
    assert (H1 : 0 <= shr_m (shr_1 r))
      by (rewrite shr_1_m by done; by apply Z.div_pos).
    rewrite IH by (by apply iter_shr_1_nonneg).
    rewrite iter_shr_1_m, shr_1_m by done.
    rewrite Z.div_div by (done || by apply Z.pow_pos_nonneg).
    replace (2 * 2 ^ Zpos k) with (2 ^ (Zpos k + 1))
      by (rewrite Z.pow_add_r by lia; lia).
    rewrite Z.div_pow2_bits by lia. f_equal. lia.
  - rewrite iter_pos_xO.
    rewrite IH by (by apply iter_shr_1_nonneg).
    rewrite iter_shr_1_m by done.
    rewrite Z.div_pow2_bits by lia. f_equal. lia.
  - change (SpecFloat.iter_pos shr_1 1 r) with (shr_1 r).
    rewrite shr_1_r by done. by rewrite Z.bit0_odd.
Qed.

End Shift.

(** Rounding a value that has a 53-bit form returns that form. *)
Section Rounding.

Local Abbreviation fexp := (SpecFloat.fexp 53 1024).

Lemma fexp_eq (x : Z) : fexp x = Z.max (x - 53) (-1074).
Proof. done. Qed.

Lemma binary_round_aux_exact (s : bool) (c : positive) (k e : Z) :
  Zdigits2 (Zpos c) = 53 -> 0 <= k -> -1074 <= e + k <= 971 ->
  binary_round_aux 53 1024 s (Zpos c * 2 ^ k) e loc_Exact =
    S754_finite s c (e + k).
Proof.
  intros Hc Hk He. unfold binary_round_aux, shr_fexp.
  rewrite Zdigits2_mul_pow2, Hc, fexp_eq by lia.
  replace (Z.max (53 + k + e - 53) (-1074) - e) with k by lia.
  change (shr_record_of_loc ?m loc_Exact) with (exact m).
  assert (shr (exact (Zpos c * 2 ^ k)) e k = (exact (Zpos c), e + k)) as ->.
  { destruct k as [|q|q]; [| |lia]; simpl shr.
    - by rewrite Z.pow_0_r, Z.mul_1_r, Z.add_0_r.
    - by rewrite iter_shr_1_exact. }
  change (round_nearest_even (shr_m (exact (Zpos c))) _) with (Zpos c).
  rewrite Hc, fexp_eq.
  replace (Z.max (53 + (e + k) - 53) (-1074) - (e + k)) with 0 by lia.
  cbn [shr exact shr_m].
  by rewrite (proj2 (Z.leb_le (e + k) (1024 - 53))) by lia.
Qed.

Lemma shl_align_le (m : positive) (e e' : Z) :
  e' <= e ->
  exists m', shl_align m e e' = (m', e') /\ Zpos m' = Zpos m * 2 ^ (e - e').
Proof.
  intros He. unfold shl_align.
  destruct (e' - e) as [|q|q] eqn:Hq; [| lia |].
  - exists m. replace e' with e by lia.
    by rewrite Z.sub_diag, Z.pow_0_r, Z.mul_1_r.
  - exists (Pos.iter xO m q). rewrite iter_xO_pow2.
    by replace (e - e') with (Zpos q) by lia.
Qed.

Lemma shl_align_ge (m : positive) (e e' : Z) :
  e <= e' -> e' <> e -> shl_align m e e' = (m, e).
Proof.
  intros He Hne. unfold shl_align. destruct (e' - e) eqn:Hq; try done; lia.
Qed.

Lemma binary_round_exact (s : bool) (M c : positive) (e e' : Z) :
  Zdigits2 (Zpos c) = 53 -> -1074 <= e' <= 971 ->
  (e' <= e /\ Zpos M * 2 ^ (e - e') = Zpos c) \/
  (e <= e' /\ Zpos M = Zpos c * 2 ^ (e' - e)) ->
  binary_round 53 1024 s M e = S754_finite s c e'.
Proof.
  intros Hc He' Hval. unfold binary_round.
  assert (Zpos (digits2_pos M) + e = 53 + e') as ->.
  { change (Zpos (digits2_pos M)) with (Zdigits2 (Zpos M)).
    destruct Hval as [[Hle Hv]|[Hle Hv]].
    - rewrite <- Hv, Zdigits2_mul_pow2 in Hc by lia. lia.
    - rewrite Hv, Zdigits2_mul_pow2 by lia. lia. }
  rewrite fexp_eq. replace (Z.max (53 + e' - 53) (-1074)) with e' by lia.
  destruct (decide (e' <= e)) as [Hle|Hgt].
  - destruct (shl_align_le M e e' Hle) as (m' & -> & Hm').
    assert (m' = c) as ->.
    { destruct Hval as [[_ H]|[Hle' H]]; [lia|].
      replace e' with e in * by lia.
      rewrite Z.sub_diag, Z.pow_0_r in *. lia. }
    cbv beta iota. rewrite <- (Z.mul_1_r (Zpos c)), <- (Z.pow_0_r 2).
    rewrite binary_round_aux_exact by lia. by rewrite Z.add_0_r.
  - destruct Hval as [[Hle' _]|[Hle' Hv]]; [lia|].
    rewrite shl_align_ge by lia. cbv beta iota.
    rewrite Hv, binary_round_aux_exact by lia. f_equal. lia.
Qed.

End Rounding.

(** Integers up to [2 ^ 53] convert and add without rounding; a larger one
    converts to a positive finite float or to the infinity. *)
Section Integers.

Lemma Zdigits2_le (n d : Z) : 0 < n -> 0 <= d -> n < 2 ^ d -> Zdigits2 n <= d.
Proof.
  intros Hn Hd Hlt. destruct (Zdigits2_spec n Hn) as [Hlo _].
  destruct (decide (Zdigits2 n <= d)) as [|Hgt]; [done|].
  pose proof (Z.pow_le_mono_r 2 d (Zdigits2 n - 1)). lia.
Qed.

Lemma Zdigits2_pos (n : Z) : 0 < n -> 0 < Zdigits2 n.
Proof.
  intros Hn. rewrite Zdigits2_log2 by done.
  pose proof (Z.log2_nonneg n). lia.
Qed.

Lemma canon_exists (N : Z) : 0 < N <= 2 ^ 53 -> exists c e, canon N c e.
Proof.
  intros [Hpos Hle].
  pose proof (Zdigits2_spec N Hpos) as [Hlo Hhi].
  pose proof (Zdigits2_pos N Hpos) as Hd.
  destruct (decide (N = 2 ^ 53)) as [->|Hne].
  - exists 4503599627370496%positive, 1. by vm_compute.
  - assert (Zdigits2 N <= 53) by (apply Zdigits2_le; lia).
    set (d := Zdigits2 N) in *.
    assert (0 < N * 2 ^ (53 - d))
      by (apply Z.mul_pos_pos; [done | apply Z.pow_pos_nonneg; lia]).
    exists (Z.to_pos (N * 2 ^ (53 - d))), (d - 53).
    unfold canon. rewrite Z2Pos.id by done. split; [|split]; [| lia |].
    + rewrite Zdigits2_mul_pow2 by lia. fold d. lia.
    + rewrite <- Z.mul_assoc, <- Z.pow_add_r by lia. do 2 f_equal. lia.
Qed.

Lemma canon_pos (N : Z) c e : canon N c e -> 0 < N.
Proof.
  intros (_ & He & Hv).
  assert (0 < Zpos c * 2 ^ (e + 52))
    by (apply Z.mul_pos_pos; [done | apply Z.pow_pos_nonneg; lia]).
  lia.
Qed.

Lemma canon_scale (N : Z) c e k :
  canon N c e -> -52 <= k -> k <= e -> k <= 0 ->
  Zpos c * 2 ^ (e - k) = N * 2 ^ (- k).
Proof.
  intros (_ & He & Hv) Hk1 Hk2 Hk3.
  apply (Z.mul_reg_r _ _ (2 ^ (k + 52))).
  { pose proof (Z.pow_pos_nonneg 2 (k + 52)). lia. }
  rewrite <- !Z.mul_assoc, <- !Z.pow_add_r by lia.
  replace (e - k + (k + 52)) with (e + 52) by lia.
  by replace (- k + (k + 52)) with 52 by lia.
Qed.

Lemma binary_round_canon (N : Z) c e' (M : positive) (e : Z) :
  canon N c e' -> -52 <= e <= 0 -> Zpos M = N * 2 ^ (- e) ->
  binary_round 53 1024 false M e = S754_finite false c e'.
Proof.
  intros Hcan He HM. pose proof Hcan as (Hc & He' & Hv).
  apply binary_round_exact; [done | lia |].
  destruct (decide (e' <= e)) as [Hle|Hgt]; [left | right]; split; try lia.
  - rewrite HM, <- Z.mul_assoc, <- Z.pow_add_r by lia.
    replace (- e + (e - e')) with (- e') by lia.
    rewrite <- (canon_scale N c e' e') by (done || lia).
    by rewrite Z.sub_diag, Z.pow_0_r, Z.mul_1_r.
  - rewrite HM. symmetry. apply canon_scale; (done || lia).
Qed.

Lemma of_Z_canon (N : Z) c e : canon N c e -> of_Z N = S754_finite false c e.
Proof.
  intros Hcan. pose proof (canon_pos _ _ _ Hcan).
  destruct N as [|n|n]; try lia.
  apply (binary_round_canon (Zpos n)); [done | lia |].
  by rewrite Z.pow_0_r, Z.mul_1_r.
Qed.

Lemma canon_lt (N : Z) c e : canon N c e -> N < 2 ^ 53 -> e <= 0.
Proof.
  intros (Hc & He & Hv) HN.
  destruct (decide (e = 1)) as [->|]; [|lia].
  pose proof (Zdigits2_spec (Zpos c) eq_refl) as [Hlo _]. rewrite Hc in Hlo.
  change (2 ^ (1 + 52)) with (2 ^ 52 * 2) in Hv.
  change (2 ^ (53 - 1)) with (2 ^ 52) in Hlo.
  change (2 ^ 53) with (2 ^ 52 * 2) in HN.
  pose proof (Z.pow_pos_nonneg 2 52). nia.
Qed.

Lemma add_of_Z_pos (a b : Z) :
  0 < a -> 0 < b -> a + b <= 2 ^ 53 ->
  add (of_Z a) (of_Z b) = of_Z (a + b).
Proof.
  intros Ha Hb Hab.
  destruct (canon_exists a) as (ca & ea & Hca); [lia|].
  destruct (canon_exists b) as (cb & eb & Hcb); [lia|].
  destruct (canon_exists (a + b)) as (c & e & Hc); [lia|].
  pose proof (canon_lt _ _ _ Hca) as Hea.
  pose proof (canon_lt _ _ _ Hcb) as Heb.
  pose proof Hca as (_ & Hea' & _). pose proof Hcb as (_ & Heb' & _).
  rewrite (of_Z_canon _ _ _ Hca), (of_Z_canon _ _ _ Hcb), (of_Z_canon _ _ _ Hc).
  unfold add, SFadd. cbv zeta.
  destruct (shl_align_le ca ea (Z.min ea eb)) as (ma & -> & Hma); [lia|].
  destruct (shl_align_le cb eb (Z.min ea eb)) as (mb & -> & Hmb); [lia|].
  cbn [fst cond_Zopp binary_normalize Z.add].
  apply (binary_round_canon (a + b)); [done | lia |].
  rewrite Pos2Z.inj_add, Hma, Hmb.
  rewrite (canon_scale a), (canon_scale b) by (done || lia). ring.
Qed.

Lemma of_Z_0 : of_Z 0 = S754_zero false.
Proof. done. Qed.

Lemma add_of_Z (a b : Z) :
  0 <= a -> 0 <= b -> a + b <= 2 ^ 53 ->
  add (of_Z a) (of_Z b) = of_Z (a + b).
Proof.
  intros Ha Hb Hab.
  destruct (decide (a = 0)) as [->|]; [|destruct (decide (b = 0)) as [->|]].
  - rewrite Z.add_0_l, of_Z_0.
    destruct (decide (b = 0)) as [->|]; [done|].
    destruct (canon_exists b) as (cb & eb & Hcb); [lia|].
    by rewrite (of_Z_canon _ _ _ Hcb).
  - rewrite Z.add_0_r, of_Z_0.
    destruct (canon_exists a) as (ca & ea & Hca); [lia|].
    by rewrite (of_Z_canon _ _ _ Hca).
  - apply add_of_Z_pos; lia.
Qed.

Lemma round_nearest_even_bounds (q : Z) (l : location) :
  q <= round_nearest_even q l <= q + 1.
Proof. destruct l as [|[]]; simpl; try destruct (Z.even q); lia. Qed.

Lemma round_nearest_even_down (mrs : shr_record) :
  shr_r mrs = false ->
  round_nearest_even (shr_m mrs) (loc_of_shr_record mrs) = shr_m mrs.
Proof. destruct mrs as [m [] []]; simpl; done. Qed.

Lemma round_nearest_even_up (mrs : shr_record) :
  shr_r mrs = true -> Z.odd (shr_m mrs) = true ->
  round_nearest_even (shr_m mrs) (loc_of_shr_record mrs) = shr_m mrs + 1.
Proof.
  destruct mrs as [m [] []]; simpl; try done.
  intros _ Hodd. by rewrite <- Z.negb_odd, Hodd.
Qed.

(** The float of an integer above [2 ^ 53]: the quotient [q] by the weight
    [2 ^ k] of the last of its 53 leading bits, or [q + 1]. *)
Lemma of_Z_large (n : Z) :
  2 ^ 53 < n ->
  let k := Zdigits2 n - 53 in
  let q := n / 2 ^ k in
  exists q',
    q <= q' <= q + 1 /\ 2 ^ 52 <= q /\ q < 2 ^ 53 /\ 0 < k /\
    (Z.testbit n (k - 1) = false -> q' = q) /\
    (Z.testbit n (k - 1) = true -> Z.odd q = true -> q' = q + 1) /\
    of_Z n =
      if decide (q' = 2 ^ 53)
      then if k + 1 <=? 971 then S754_finite false 4503599627370496 (k + 1)
           else S754_infinity false
      else if k <=? 971 then S754_finite false (Z.to_pos q') k
           else S754_infinity false.
Proof.
  intros Hgt. destruct n as [|p|p]; try lia.
  assert (Hn : 0 < Zpos p) by done.
  pose proof (Zdigits2_spec (Zpos p) Hn) as [Hlo Hhi].
  assert (Hd : 54 <= Zdigits2 (Zpos p)).
  { destruct (decide (54 <= Zdigits2 (Zpos p))) as [|Hlt]; [done|].
    pose proof (Z.pow_le_mono_r 2 (Zdigits2 (Zpos p)) 53). lia. }
  set (d := Zdigits2 (Zpos p)) in *. cbv zeta.
  unfold of_Z, binary_normalize, binary_round.
  change (Zpos (digits2_pos p)) with d.
  rewrite fexp_eq. replace (Z.max (d + 0 - 53) (-1074)) with (d - 53) by lia.
  rewrite shl_align_ge by lia. cbv beta iota.
  unfold binary_round_aux, shr_fexp. fold d.
  rewrite fexp_eq. replace (Z.max (d + 0 - 53) (-1074) - 0) with (d - 53) by lia.
  change (shr_record_of_loc ?m loc_Exact) with (exact m).
  destruct (d - 53) as [|k|k] eqn:Hk; try lia.
  cbn [shr]. rewrite Z.add_0_l.
  set (r1 := SpecFloat.iter_pos shr_1 k (exact (Zpos p))).
  assert (Hq : shr_m r1 = Zpos p / 2 ^ Zpos k)
    by (unfold r1; by rewrite iter_shr_1_m).
  assert (Hr1 : shr_r r1 = Z.testbit (Zpos p) (Zpos k - 1))
    by (unfold r1; by rewrite iter_shr_1_r).
  assert (Hpk : 0 < 2 ^ Zpos k) by (by apply Z.pow_pos_nonneg).
  assert (Hq1 : 2 ^ 52 <= shr_m r1).
  { rewrite Hq. apply Z.div_le_lower_bound; [done|].
    rewrite <- Z.pow_add_r by lia. by replace (Zpos k + 52) with (d - 1) by lia. }
  assert (Hq2 : shr_m r1 < 2 ^ 53).
  { rewrite Hq. apply Z.div_lt_upper_bound; [done|].
    rewrite <- Z.pow_add_r by lia. by replace (Zpos k + 53) with d by lia. }
  pose proof (round_nearest_even_bounds (shr_m r1) (loc_of_shr_record r1)) as Hr.
  pose proof (round_nearest_even_down r1) as Hdown.
  pose proof (round_nearest_even_up r1) as Hup.
  set (q' := round_nearest_even (shr_m r1) (loc_of_shr_record r1)) in *.
  rewrite Hr1, Hq in *. exists q'.
  do 6 (split; [done || lia|]).
  case_decide as Hq'; [rewrite Hq'|].
  - change (Zdigits2 (2 ^ 53)) with 54. rewrite fexp_eq.
    replace (Z.max (54 + Zpos k - 53) (-1074) - Zpos k) with 1 by lia.
    done.
  - assert (Hdq : Zdigits2 q' = 53).
    { apply Zdigits2_bounds; [done|]. change (2 ^ (53 - 1)) with (2 ^ 52). lia. }
    rewrite Hdq, fexp_eq.
    replace (Z.max (53 + Zpos k - 53) (-1074) - Zpos k) with 0 by lia.
    cbn [shr exact shr_m].
    assert (0 < q') by (pose proof (Z.pow_pos_nonneg 2 52); lia).
    by destruct q' as [|m|m]; try lia.
Qed.

Lemma of_Z_small_finite (n : Z) :
  0 <= n <= 2 ^ 53 -> forall s, of_Z n <> S754_infinity s.
Proof.
  intros [Hn Hle] s. destruct (decide (n = 0)) as [->|]; [done|].
  destruct (canon_exists n) as (c & e & Hc); [lia|].
  by rewrite (of_Z_canon _ _ _ Hc).
Qed.

Lemma of_Z_overflow (n : Z) :
  0 <= n -> (exists s, of_Z n = S754_infinity s) <-> FLOAT_OVERFLOW <= n.
Proof.
  intros Hn. unfold FLOAT_OVERFLOW.
  destruct (decide (n <= 2 ^ 53)) as [Hle|Hgt].
  { assert (2 ^ 53 < 2 ^ 1024 - 2 ^ 970) by done. split; [|lia].
    intros [s Hs]. by apply of_Z_small_finite in Hs. }
  pose proof (Zdigits2_spec n) as [Hlo Hhi]; [lia|].
  destruct (of_Z_large n) as (q' & Hq' & Hq1 & Hq2 & Hk & Hdown & Hup & ->); [lia|].
  remember (Zdigits2 n) as d eqn:Ed.
  remember (d - 53) as k eqn:Ek.
  remember (n / 2 ^ k) as q eqn:Eq.
  destruct (decide (k <= 970)) as [Hk1|Hk1].
  { assert (n < 2 ^ 1024 - 2 ^ 970).
    { pose proof (Z.pow_le_mono_r 2 d 1023).
      assert (2 ^ 1023 < 2 ^ 1024 - 2 ^ 970) by done. lia. }
    rewrite (proj2 (Z.leb_le (k + 1) 971)), (proj2 (Z.leb_le k 971)) by lia.
    split; [|lia]. intros [s Hs]. by case_decide. }
  destruct (decide (972 <= k)) as [Hk2|Hk2].
  { assert (2 ^ 1024 - 2 ^ 970 <= n).
    { pose proof (Z.pow_le_mono_r 2 1024 (d - 1)).
      assert (2 ^ 1024 - 2 ^ 970 < 2 ^ 1024) by done. lia. }
    rewrite (proj2 (Z.leb_gt (k + 1) 971)), (proj2 (Z.leb_gt k 971)) by lia.
    split; [done|]. intros _. exists false. by case_decide. }
  assert (k = 971) as -> by lia. assert (d = 1024) as -> by lia.
  clear Hk1 Hk2 Hk Ek.
  change (971 + 1 <=? 971) with false. change (971 <=? 971) with true.
  change (1024 - 1) with 1023 in Hlo. change (971 - 1) with 970 in *.
  (* the bit of weight 2 ^ 970 *)
  set (P := 2 ^ 970) in *.
  assert (HP : 0 < P) by done.
  change (2 ^ 1024) with (2 ^ 54 * P) in *.
  change (2 ^ 1023) with (2 ^ 53 * P) in *.
  set (u := n / P).
  assert (Hu : u * P <= n < (u + 1) * P).
  { unfold u. pose proof (Z.mul_div_le n P HP).
    pose proof (Z.mul_succ_div_gt n P HP). lia. }
  assert (Hqu : q = u / 2).
  { rewrite Eq. unfold u. change (2 ^ 971) with (P * 2).
    by rewrite Z.div_div by lia. }
  assert (Hbit : Z.testbit n 970 = Z.odd u).
  { unfold u. by rewrite Z.testbit_odd, Z.shiftr_div_pow2 by lia. }
  rewrite Hbit in *.
  assert (Hu2 : u = 2 * q + (if Z.odd u then 1 else 0)).
  { rewrite Hqu. rewrite (Z.div_mod u 2) at 1 by lia.
    rewrite Zmod_odd. lia. }
  change (2 ^ 53) with 9007199254740992 in *.
  change (2 ^ 52) with 4503599627370496 in *.
  change (2 ^ 54) with 18014398509481984 in *.
  split.
  - intros [s Hs]. case_decide as Hq'53; [|done].
    destruct (Z.odd u) eqn:Hodd.
    + nia.
    + specialize (Hdown eq_refl). lia.
  - intros Hmax.
    assert (Hu3 : 18014398509481983 <= u) by nia.
    assert (Hodd : Z.odd u = true).
    { destruct (Z.odd u); [done|]. nia. }
    rewrite Hodd in *.
    assert (Hq53 : q = 9007199254740991) by lia.
    assert (Hoq : Z.odd q = true) by (by rewrite Hq53).
    exists false. case_decide; [done|]. specialize (Hup eq_refl Hoq). lia.
Qed.

Lemma of_Z_shape (n : Z) :
  0 < n ->
  (exists m e, of_Z n = S754_finite false m e) \/ of_Z n = S754_infinity false.
Proof.
  intros Hn. destruct (decide (n <= 2 ^ 53)) as [Hle|Hgt].
  { destruct (canon_exists n) as (c & e & Hc); [lia|].
    left. exists c, e. by apply of_Z_canon. }
  destruct (of_Z_large n) as (q' & _ & _ & _ & _ & _ & _ & ->); [lia|].
  case_decide; case_match; eauto.
Qed.

Lemma of_Z_finite (n : Z) :
  0 < n < FLOAT_OVERFLOW -> exists m e, of_Z n = S754_finite false m e.
Proof.
  intros [Hn Hlt]. destruct (of_Z_shape n Hn) as [|Hinf]; [done|].
  assert (FLOAT_OVERFLOW <= n) by (apply of_Z_overflow; [lia | eauto]). lia.
Qed.

End Integers.

(** On well-formed floats [SFcompare] is the order of the scaled integers. *)
Section Compare.

Lemma valid_finite (s : bool) (m : positive) (e : Z) :
  valid (S754_finite s m e) = true ->
  -1074 <= e <= 971 /\ Zpos m < 2 ^ 53 /\ (-1074 < e -> 2 ^ 52 <= Zpos m).
Proof.
  unfold valid, valid_binary, bounded, canonical_mantissa.
  rewrite andb_true_iff, Z.eqb_eq, Z.leb_le, fexp_eq.
  change (Zpos (digits2_pos m)) with (Zdigits2 (Zpos m)).
  intros [Hc He]. change (emax - prec) with 971 in He.
  pose proof (Zdigits2_spec (Zpos m) eq_refl) as [Hlo Hhi].
  pose proof (Zdigits2_pos (Zpos m) eq_refl) as Hd.
  set (d := Zdigits2 (Zpos m)) in *.
  split; [lia|]. split.
  - pose proof (Z.pow_le_mono_r 2 d 53). lia.
  - intros Hgt. by replace d with 53 in Hlo by lia.
Qed.

Lemma scaled_lt_exp (m1 m2 : positive) (e1 e2 : Z) :
  valid (S754_finite false m1 e1) = true ->
  valid (S754_finite false m2 e2) = true ->
  e1 < e2 ->
  Zpos m1 * 2 ^ (e1 + 1074) < Zpos m2 * 2 ^ (e2 + 1074).
Proof.
  intros (He1 & Hm1 & _)%valid_finite (He2 & _ & Hm2)%valid_finite Hlt.
  specialize (Hm2 ltac:(lia)).
  assert (Hp : 0 < 2 ^ (e1 + 1074)) by (apply Z.pow_pos_nonneg; lia).
  assert (Hmono : 2 ^ (e1 + 1074) * 2 <= 2 ^ (e2 + 1074)).
  { rewrite <- (Z.pow_1_r 2) at 2. rewrite <- Z.pow_add_r by lia.
    apply Z.pow_le_mono_r; lia. }
  change (2 ^ 53) with (2 ^ 52 * 2) in Hm1.
  pose proof (Z.pow_pos_nonneg 2 52). nia.
Qed.

Lemma compare_pos (m1 m2 : positive) (e1 e2 : Z) :
  valid (S754_finite false m1 e1) = true ->
  valid (S754_finite false m2 e2) = true ->
  match e1 ?= e2 with
  | Lt => Lt
  | Gt => Gt
  | Eq => Pos.compare_cont Eq m1 m2
  end = (Zpos m1 * 2 ^ (e1 + 1074) ?= Zpos m2 * 2 ^ (e2 + 1074)).
Proof.
  intros H1 H2. symmetry. destruct (Z.compare_spec e1 e2) as [->|Hlt|Hgt].
  - pose proof (valid_finite _ _ _ H2) as (He & _).
    rewrite <- Zmult_compare_compat_r
      by (apply Z.lt_gt, Z.pow_pos_nonneg; lia). done.
  - apply Z.compare_lt_iff. by apply scaled_lt_exp.
  - apply Z.compare_gt_iff. by apply scaled_lt_exp.
Qed.

Lemma valid_sign (s s' : bool) m e :
  valid (S754_finite s m e) = valid (S754_finite s' m e).
Proof. done. Qed.

Lemma SFcompare_scaled (x y : float) :
  valid x = true -> valid y = true -> is_real x = true -> is_real y = true ->
  SFcompare x y = Some (scaled x ?= scaled y).
Proof.
  intros Hx Hy Rx Ry.
  destruct x as [sx|sx| |sx mx ex], y as [sy|sy| |sy my ey]; try done.
  - cbn [SFcompare scaled]. f_equal.
    pose proof (valid_finite _ _ _ Hy) as (He & _).
    assert (0 < 2 ^ (ey + 1074)) by (apply Z.pow_pos_nonneg; lia).
    destruct sy; symmetry;
      [apply Z.compare_gt_iff | apply Z.compare_lt_iff]; nia.
  - cbn [SFcompare scaled]. f_equal.
    pose proof (valid_finite _ _ _ Hx) as (He & _).
    assert (0 < 2 ^ (ex + 1074)) by (apply Z.pow_pos_nonneg; lia).
    destruct sx; symmetry;
      [apply Z.compare_lt_iff | apply Z.compare_gt_iff]; nia.
  - pose proof (valid_finite _ _ _ Hx) as (Hex & _).
    pose proof (valid_finite _ _ _ Hy) as (Hey & _).
    assert (0 < 2 ^ (ex + 1074)) by (apply Z.pow_pos_nonneg; lia).
    assert (0 < 2 ^ (ey + 1074)) by (apply Z.pow_pos_nonneg; lia).
    rewrite (valid_sign _ false) in Hx. rewrite (valid_sign _ false) in Hy.
    cbn [SFcompare scaled]. f_equal. destruct sx, sy.
    + transitivity
        (CompOpp (Zpos mx * 2 ^ (ex + 1074) ?= Zpos my * 2 ^ (ey + 1074))).
      * rewrite <- (compare_pos _ _ _ _ Hx Hy). by destruct (ex ?= ey).
      * rewrite <- Z.compare_antisym, <- Z.compare_opp. f_equal; lia.
    + symmetry. apply Z.compare_lt_iff. nia.
    + symmetry. apply Z.compare_gt_iff. nia.
    + by apply compare_pos.
Qed.

End Compare.

(** [x <= y] and [y < t] give [x < t], on all floats. *)
Section Order.

Lemma leb_ltb_trans (x y t : float) :
  leb x y = true -> ltb y t = true -> ltb x t = true.
Proof.
  unfold leb, ltb, SFleb, SFltb.
  destruct x as [sx|sx| |sx mx ex], y as [sy|sy| |sy my ey],
    t as [st|st| |st mt et]; try destruct sx; try destruct sy; try destruct st;
    cbn [SFcompare]; try done; intros H1 H2; compare_cases; try done; try lia.
Qed.

End Order.

(** The float comparisons are those of the rationals denoted. *)
Section Rational.

Lemma two_neq_0 : ~ (2 == 0)%Q.
Proof. done. Qed.

Lemma pow2Q_pos (e : Z) : (0 < 2 ^ e)%Q.
Proof. by apply Qpower_0_lt. Qed.

Lemma to_Q_scaled (x : float) (q : Q) :
  valid x = true -> to_Q x = Some q ->
  (q == inject_Z (scaled x) * 2 ^ (-1074))%Q.
Proof.
  intros Hv Hq. destruct x as [s|s| |s m e]; try done.
  - injection Hq as <-. cbn [scaled]. by rewrite Qmult_0_l.
  - injection Hq as <-. cbn [scaled].
    pose proof (valid_finite _ _ _ Hv) as (He & _).
    rewrite inject_Z_mult, Zpower_Qpower by lia.
    rewrite <- Qmult_assoc, <- Qpower_plus by apply two_neq_0.
    by replace (e + 1074 + -1074) with e by lia.
Qed.

Lemma Qlt_scaled (x y : float) (qx qy : Q) :
  valid x = true -> valid y = true ->
  to_Q x = Some qx -> to_Q y = Some qy ->
  (qx < qy)%Q <-> scaled x < scaled y.
Proof.
  intros Hx Hy Hqx Hqy.
  rewrite (to_Q_scaled x qx), (to_Q_scaled y qy) by done.
  rewrite Qmult_lt_r by apply pow2Q_pos. by rewrite <- Zlt_Qlt.
Qed.

Lemma to_Q_is_real (x : float) (q : Q) : to_Q x = Some q -> is_real x = true.
Proof. by destruct x. Qed.

Lemma ltb_Qlt (x y : float) (qx qy : Q) :
  valid x = true -> valid y = true ->
  to_Q x = Some qx -> to_Q y = Some qy ->
  ltb x y = true <-> (qx < qy)%Q.
Proof.
  intros Hx Hy Hqx Hqy. rewrite (Qlt_scaled x y) by done.
  unfold ltb, SFltb.
  rewrite SFcompare_scaled by eauto using to_Q_is_real.
  rewrite <- Z.compare_lt_iff. by destruct (scaled x ?= scaled y).
Qed.

Lemma ltb_Qle (x y : float) (qx qy : Q) :
  valid x = true -> valid y = true ->
  to_Q x = Some qx -> to_Q y = Some qy ->
  ltb x y = false <-> (qy <= qx)%Q.
Proof.
  intros Hx Hy Hqx Hqy. rewrite <- not_true_iff_false, (ltb_Qlt x y) by done.
  split; [apply Qnot_lt_le | apply Qle_not_lt].
Qed.

End Rational.

(** ** Facts about dictionaries and the Python primitives *)

Section Dict.

Lemma key_set_eq (a b : dict) :
  key_set a = key_set b <-> forall k, k ∈ keys a <-> k ∈ keys b.
Proof.
  unfold key_set. rewrite set_eq. by setoid_rewrite elem_of_list_to_set.
Qed.

Lemma dict_get_in (d : dict) (k : string) :
  k ∈ keys d -> dict_getitem d k = Ok (score d k).
Proof.
  unfold dict_getitem, score, keys. induction d as [|[k' v] d IH]; simpl.
  - by intros ?%elem_of_nil.
  - intros [->|Hin]%elem_of_cons; case_decide; try done. by apply IH.
Qed.

Lemma dict_setitem_fresh (d : dict) (k : string) (v : Z) :
  k ∉ keys d -> dict_setitem d k v = d ++ [(k, v)].
Proof.
  unfold keys. induction d as [|[k' v'] d IH]; simpl; [done|].
  intros [Hne Hin]%not_elem_of_cons. case_decide; [by subst|].
  f_equal. by apply IH.
Qed.

Lemma diffs_after_fresh (a b d : dict) (ks : list string) :
  NoDup ks -> (forall k, k ∈ ks -> k ∉ keys d) ->
  diffs_after a b d ks = d ++ ((fun k => (k, abs_diff a b k)) <$> ks).
Proof.
  unfold diffs_after. intros Hnd. revert d.
  induction Hnd as [|k ks Hk Hnd IH]; intros d Hd; simpl.
  - by rewrite app_nil_r.
  - rewrite dict_setitem_fresh by (apply Hd; left).
    rewrite IH, <- app_assoc; [done|].
    intros k' Hk'. unfold keys. rewrite fmap_app, elem_of_app. simpl.
    intros [Hin|Hin%list_elem_of_singleton].
    + by apply (Hd k'); [right|].
    + by subst.
Qed.

Lemma dict_get_fmap (f : string -> Z) (ks : list string) (k : string) :
  k ∈ ks -> dict_get ((fun k => (k, f k)) <$> ks) k = Some (f k).
Proof.
  induction ks as [|k' ks IH]; simpl.
  - by intros ?%elem_of_nil.
  - intros Hin. case_decide; [by subst|].
    apply IH. apply elem_of_cons in Hin as [->|]; done.
Qed.

Lemma keys_fmap (f : string -> Z) (ks : list string) :
  keys ((fun k => (k, f k)) <$> ks) = ks.
Proof. unfold keys. rewrite <- list_fmap_compose. apply list_fmap_id. Qed.

End Dict.

(** When the conversions and divisions return, and what they raise. *)
Section Python.

Lemma py_float_ok (z : Z) : 0 <= z < FLOAT_OVERFLOW -> py_float z = Ok (of_Z z).
Proof.
  intros [Hz Hlt]. unfold py_float.
  destruct (decide (z = 0)) as [->|]; [done|].
  by destruct (of_Z_finite z) as (m & e & ->); [lia|].
Qed.

Lemma py_float_lt (z : Z) (x : float) :
  0 <= z -> py_float z = Ok x -> z < FLOAT_OVERFLOW.
Proof.
  intros Hz Hx. destruct (decide (z < FLOAT_OVERFLOW)) as [|Hge]; [done|].
  destruct (proj2 (of_Z_overflow z Hz)) as [s Hs]; [lia|].
  unfold py_float in Hx. by rewrite Hs in Hx.
Qed.

Lemma float_add_int_ok (x : float) (z : Z) :
  0 <= z < FLOAT_OVERFLOW -> float_add_int x z = Ok (add x (of_Z z)).
Proof. intros Hz. unfold float_add_int. by rewrite py_float_ok. Qed.

Lemma float_add_int_lt (x y : float) (z : Z) :
  0 <= z -> float_add_int x z = Ok y -> z < FLOAT_OVERFLOW.
Proof.
  intros Hz. unfold float_add_int. destruct (py_float z) as [f|] eqn:E; [|done].
  intros _. by eapply py_float_lt.
Qed.

Lemma float_truediv_int_ok (x : float) (z : Z) :
  0 < z < FLOAT_OVERFLOW -> float_truediv_int x z = Ok (div x (of_Z z)).
Proof.
  intros Hz. unfold float_truediv_int. rewrite py_float_ok by lia.
  by destruct (of_Z_finite z) as (m & e & ->).
Qed.

Lemma py_float_error (z : Z) (e : exn) : py_float z = Raise e -> e = OverflowError.
Proof. unfold py_float. destruct (of_Z z); naive_solver. Qed.

Lemma float_add_int_error (x : float) (z : Z) (e : exn) :
  float_add_int x z = Raise e -> e = OverflowError.
Proof.
  unfold float_add_int. destruct (py_float z) eqn:E; [done|].
  intros [= <-]. by eapply py_float_error.
Qed.

Lemma float_truediv_int_error (x : float) (z : Z) (e : exn) :
  0 < z -> float_truediv_int x z = Raise e -> e = OverflowError.
Proof.
  intros Hz. unfold float_truediv_int, py_float.
  destruct (of_Z_shape z Hz) as [(m & ex & ->)| ->]; simpl; naive_solver.
Qed.

Lemma div_zero_pos (z : Z) :
  0 < z < FLOAT_OVERFLOW -> div (S754_zero false) (of_Z z) = S754_zero false.
Proof. intros Hz. by destruct (of_Z_finite z) as (m & e & ->). Qed.

Lemma PY_SSIZE_T_MAX_lt : PY_SSIZE_T_MAX < FLOAT_OVERFLOW.
Proof. done. Qed.

End Python.

(** ** The loop of [calculate_mae] *)

Section Loop.

Context (a b : dict).

Lemma abs_diff_nonneg (k : string) : 0 <= abs_diff a b k.
Proof. apply Z.abs_nonneg. Qed.

Lemma mae_loop_step (k : string) (ks : list string) (st : dict * float) :
  k ∈ keys a -> k ∈ keys b ->
  mae_loop a b (k :: ks) st =
    t ← float_add_int st.2 (abs_diff a b k);
    mae_loop a b ks (dict_setitem st.1 k (abs_diff a b k), t).
Proof. intros Ha Hb. simpl. by rewrite !dict_get_in. Qed.

Lemma mae_loop_ok (ks : list string) (st : dict * float) :
  (forall k, k ∈ ks ->
     k ∈ keys a /\ k ∈ keys b /\ abs_diff a b k < FLOAT_OVERFLOW) ->
  mae_loop a b ks st = Ok (diffs_after a b st.1 ks, total_after a b st.2 ks).
Proof.
  revert st. induction ks as [|k ks IH]; intros [d t] Hks; [done|].
  destruct (Hks k) as (Ha & Hb & Hk); [left|].
  pose proof (abs_diff_nonneg k).
  rewrite mae_loop_step, float_add_int_ok by done.
  simpl. rewrite IH; [done|]. intros k' Hk'. apply Hks. by right.
Qed.

Lemma mae_loop_lt (ks : list string) (st st' : dict * float) :
  (forall k, k ∈ ks -> k ∈ keys a /\ k ∈ keys b) ->
  mae_loop a b ks st = Ok st' ->
  forall k, k ∈ ks -> abs_diff a b k < FLOAT_OVERFLOW.
Proof.
  revert st. induction ks as [|k ks IH]; intros [d t] Hks Hloop k' Hk'.
  { by apply elem_of_nil in Hk'. }
  destruct (Hks k) as (Ha & Hb); [left|].
  rewrite mae_loop_step in Hloop by done.
  destruct (float_add_int _ _) as [t'|] eqn:E; [|done]. simpl in Hloop.
  apply elem_of_cons in Hk' as [->|Hk'].
  - eapply float_add_int_lt; [apply abs_diff_nonneg | done].
  - eapply IH; [|done..]. intros k'' Hk''. apply Hks. by right.
Qed.

Lemma mae_loop_error (ks : list string) (st : dict * float) (e : exn) :
  (forall k, k ∈ ks -> k ∈ keys a /\ k ∈ keys b) ->
  mae_loop a b ks st = Raise e -> e = OverflowError.
Proof.
  revert st. induction ks as [|k ks IH]; intros [d t] Hks; [done|].
  destruct (Hks k) as (Ha & Hb); [left|].
  rewrite mae_loop_step by done.
  destruct (float_add_int _ _) eqn:E; simpl.
  - apply IH. intros k' Hk'. apply Hks. by right.
  - intros [= <-]. by eapply float_add_int_error.
Qed.

Lemma mae_loop_sound (ks : list string) (st st' : dict * float) :
  mae_loop a b ks st = Ok st' ->
  st' = (diffs_after a b st.1 ks, total_after a b st.2 ks).
Proof.
  revert st. induction ks as [|k ks IH]; intros [d t]; simpl; [naive_solver|].
  unfold dict_getitem, abs_diff, score.
  destruct (dict_get a k) as [x|]; [|done].
  destruct (dict_get b k) as [y|]; [|done]. simpl.
  unfold float_add_int.
  destruct (py_float _) as [f|] eqn:E; [|done]. simpl.
  intros ->%IH. simpl. do 3 f_equal.
  unfold py_float in E. destruct (of_Z _); naive_solver.
Qed.

Lemma sum_Z_cons (x : Z) (l : list Z) : sum_Z (x :: l) = x + sum_Z l.
Proof. done. Qed.

Lemma sum_abs_diff_nonneg (ks : list string) : 0 <= sum_Z (abs_diff a b <$> ks).
Proof.
  induction ks as [|k ks IH]; [done|]. rewrite fmap_cons, sum_Z_cons.
  pose proof (abs_diff_nonneg k). lia.
Qed.

Lemma total_after_exact (s : Z) (ks : list string) :
  0 <= s -> s + sum_Z (abs_diff a b <$> ks) <= 2 ^ 53 ->
  total_after a b (of_Z s) ks = of_Z (s + sum_Z (abs_diff a b <$> ks)).
Proof.
  unfold total_after. revert s. induction ks as [|k ks IH]; intros s Hs Hsum.
  - simpl. by rewrite Z.add_0_r.
  - rewrite fmap_cons, sum_Z_cons in *. simpl foldl.
    pose proof (abs_diff_nonneg k).
    pose proof (sum_abs_diff_nonneg ks).
    rewrite add_of_Z, IH by lia. f_equal. lia.
Qed.

End Loop.

(** The integer sum of the differences: its symmetry, and its float. *)
Section Sums.

Lemma sum_Z_perm (l1 l2 : list Z) : l1 ≡ₚ l2 -> sum_Z l1 = sum_Z l2.
Proof.
  induction 1 as [|x l1 l2 _ IH|x y l|l1 l2 l3 _ IH1 _ IH2];
    rewrite ?sum_Z_cons; try done; lia.
Qed.

Lemma abs_diff_sym (a b : dict) (k : string) : abs_diff b a k = abs_diff a b k.
Proof. unfold abs_diff. lia. Qed.

Lemma keys_perm (a b : dict) :
  NoDup (keys a) -> NoDup (keys b) -> key_set a = key_set b -> keys a ≡ₚ keys b.
Proof. intros Ha Hb Hk. apply NoDup_Permutation; [done..|]. by apply key_set_eq. Qed.

Lemma sum_abs_diff_sym (a b : dict) :
  NoDup (keys a) -> NoDup (keys b) -> key_set a = key_set b ->
  sum_abs_diff b a = sum_abs_diff a b.
Proof.
  intros Ha Hb Hk. unfold sum_abs_diff.
  rewrite (sum_Z_perm _ (abs_diff b a <$> keys a))
    by (apply fmap_Permutation; symmetry; by apply keys_perm).
  f_equal. apply list_fmap_ext. intros _ k _. apply abs_diff_sym.
Qed.

Lemma abs_diff_le_sum (a b : dict) (ks : list string) (k : string) :
  k ∈ ks -> abs_diff a b k <= sum_Z (abs_diff a b <$> ks).
Proof.
  induction ks as [|k' ks IH]; [by intros ?%elem_of_nil|].
  rewrite fmap_cons, sum_Z_cons.
  pose proof (abs_diff_nonneg a b k'). pose proof (sum_abs_diff_nonneg a b ks).
  intros [->|Hin]%elem_of_cons; [lia|]. specialize (IH Hin). lia.
Qed.

Lemma exact_in_float_range (a b : dict) :
  sum_abs_diff a b <= 2 ^ 53 -> in_float_range a b.
Proof.
  intros Hs k Hk. pose proof (abs_diff_le_sum a b (keys a) k Hk).
  pose proof (abs_diff_nonneg a b k).
  unfold sum_abs_diff in Hs. assert (2 ^ 53 < FLOAT_OVERFLOW) by done. lia.
Qed.

Lemma total_exact (a b : dict) :
  sum_abs_diff a b <= 2 ^ 53 ->
  total_after a b lit_0_0 (keys a) = of_Z (sum_abs_diff a b).
Proof.
  intros Hs. change lit_0_0 with (of_Z 0).
  by rewrite total_after_exact by (done || lia).
Qed.

End Sums.

Section Represents.

Lemma represents_of_Z (n : Z) : 0 <= n <= 2 ^ 53 -> represents (of_Z n) n.
Proof.
  intros [Hn Hle]. destruct (decide (n = 0)) as [->|Hne].
  { by exists 0%Q. }
  destruct (canon_exists n) as (c & e & Hc); [lia|].
  rewrite (of_Z_canon _ _ _ Hc). destruct Hc as (_ & He & Hv).
  eexists; split; [reflexivity|].
  apply (Qmult_inj_r _ _ (2 ^ 52)); [apply Qpower_not_0, two_neq_0|].
  rewrite <- Qmult_assoc, <- Qpower_plus by apply two_neq_0.
  change 2%Q with (inject_Z 2).
  rewrite <- !Zpower_Qpower, <- !inject_Z_mult by lia.
  by rewrite Hv.
Qed.

End Represents.

(** ** What [calculate_mae] and [calculate_batch_mae] return *)

Section CalculateMae.

Lemma float_truediv_int_sound (x y : float) (n : Z) :
  float_truediv_int x n = Ok y -> y = div x (of_Z n).
Proof.
  unfold float_truediv_int, py_float.
  destruct (of_Z n); simpl; naive_solver.
Qed.

Lemma calculate_mae_mismatch (a b : dict) :
  key_set a ≠ key_set b -> calculate_mae a b = Raise (ValueError MISMATCH).
Proof. intros Hne. unfold calculate_mae. by case_decide. Qed.

Lemma calculate_mae_ok (a b : dict) :
  key_set a = key_set b -> in_float_range a b -> len a <= PY_SSIZE_T_MAX ->
  calculate_mae a b = Ok (mae_result a b).
Proof.
  intros Hkeys Hrange Hlen. unfold calculate_mae.
  case_decide; [done|].
  rewrite mae_loop_ok; cycle 1.
  { intros k Hk. split; [done|].
    split; [by apply (key_set_eq a b) | by apply Hrange]. }
  simpl. unfold mae_result, mae_of. case_decide; [|done].
  rewrite float_truediv_int_ok; [done|].
  pose proof PY_SSIZE_T_MAX_lt. lia.
Qed.

Lemma calculate_mae_sound (a b : dict) (r : MAEResult) :
  calculate_mae a b = Ok r -> key_set a = key_set b /\ r = mae_result a b.
Proof.
  unfold calculate_mae. case_decide as Hk; [done|].
  destruct (mae_loop _ _ _ _) as [st|] eqn:Hloop; [|done]. simpl.
  apply mae_loop_sound in Hloop as ->. simpl.
  unfold mae_result, mae_of. case_decide.
  - destruct (float_truediv_int _ _) as [m|] eqn:Hdiv; [|done]. simpl.
    apply float_truediv_int_sound in Hdiv as ->. naive_solver.
  - naive_solver.
Qed.

Lemma calculate_mae_in_float_range (a b : dict) (r : MAEResult) :
  calculate_mae a b = Ok r -> in_float_range a b.
Proof.
  unfold calculate_mae. case_decide as Hk; [done|].
  destruct (mae_loop _ _ _ _) as [st|] eqn:Hloop; [|done]. intros _ k Hin.
  apply (mae_loop_lt a b (keys a) ([], lit_0_0) st); [|done..].
  intros k' Hk'. split; [done|]. by apply (key_set_eq a b).
Qed.

Lemma calculate_mae_error (a b : dict) (e : exn) :
  calculate_mae a b = Raise e ->
  (e = ValueError MISMATCH /\ key_set a ≠ key_set b) \/
  (e = OverflowError /\ key_set a = key_set b).
Proof.
  unfold calculate_mae. case_decide as Hk; [naive_solver|].
  intros Hraise. right. split; [|done].
  destruct (mae_loop _ _ _ _) as [st|] eqn:Hloop; simpl in *.
  - case_decide; [|done].
    destruct (float_truediv_int _ _) eqn:Hdiv; [done|].
    simpl in *. injection Hraise as <-.
    eapply float_truediv_int_error; [|done]. lia.
  - injection Hraise as <-. eapply mae_loop_error; [|done].
    intros k Hk'. split; [done|]. by apply (key_set_eq a b).
Qed.

End CalculateMae.

Section Batch.

Context (py_sum : list float -> float).

Lemma batch_loop_ok (chats : list chat) (rs acc : list MAEResult) :
  Forall2 compares_to chats rs -> batch_loop chats acc = Ok (acc ++ rs).
Proof.
  intros H. revert acc. induction H as [|c r chats rs Hc _ IH]; intros acc; simpl.
  - by rewrite app_nil_r.
  - rewrite Hc. simpl. by rewrite IH, <- app_assoc.
Qed.

Lemma batch_loop_raise (pre post : list chat) (c : chat) (e : exn)
    (acc : list MAEResult) :
  Forall (fun c' => exists r, compares_to c' r) pre ->
  calculate_mae (ai_scores c) (human_scores c) = Raise e ->
  batch_loop (pre ++ c :: post) acc = Raise e.
Proof.
  intros Hpre Hc. revert acc.
  induction Hpre as [|c' pre [r Hr] _ IH]; intros acc; simpl.
  - by rewrite Hc.
  - rewrite Hr. simpl. apply IH.
Qed.

Lemma calculate_batch_mae_ok (chats : list chat) (rs : list MAEResult) :
  Forall2 compares_to chats rs -> len chats <= PY_SSIZE_T_MAX ->
  calculate_batch_mae py_sum chats = Ok (batch_average py_sum rs, rs).
Proof.
  intros Hrs Hlen. unfold calculate_batch_mae.
  rewrite (batch_loop_ok _ rs) by done. simpl.
  destruct rs as [|r rs]; [done|]. cbn [batch_average].
  rewrite float_truediv_int_ok; [done|].
  apply Forall2_length in Hrs. unfold len in *. rewrite <- Hrs.
  pose proof PY_SSIZE_T_MAX_lt. destruct chats; simpl in *; [done|lia].
Qed.

Lemma calculate_batch_mae_raise (pre post : list chat) (c : chat) (e : exn) :
  Forall (fun c' => exists r, compares_to c' r) pre ->
  calculate_mae (ai_scores c) (human_scores c) = Raise e ->
  calculate_batch_mae py_sum (pre ++ c :: post) = Raise e.
Proof.
  intros Hpre Hc. unfold calculate_batch_mae.
  by rewrite (batch_loop_raise pre post c e).
Qed.

Lemma compares_all (chats : list chat) :
  Forall (fun c => exists r, compares_to c r) chats ->
  exists rs, Forall2 compares_to chats rs.
Proof.
  induction 1 as [|c chats [r Hr] _ [rs Hrs]].
  - by exists [].
  - exists (r :: rs). by constructor.
Qed.

Lemma first_failure (chats : list chat) :
  Forall (fun c => exists r, compares_to c r) chats \/
  exists pre c post e, chats = pre ++ c :: post /\
    Forall (fun c' => exists r, compares_to c' r) pre /\
    calculate_mae (ai_scores c) (human_scores c) = Raise e.
Proof.
  induction chats as [|c chats IH]; [by left|].
  destruct (calculate_mae (ai_scores c) (human_scores c)) as [r|e] eqn:Hc.
  - destruct IH as [IH|(pre & c' & post & e & -> & Hpre & Hc')].
    + left. constructor; [by exists r | done].
    + right. exists (c :: pre), c', post, e. split; [done|]. split; [|done].
      constructor; [by exists r | done].
  - right. by exists [], c, chats, e.
Qed.

Lemma comparable_compares (c : chat) :
  comparable c -> exists r, compares_to c r.
Proof.
  intros ([_ Hlen] & Hkeys & Hrange). eexists. by apply calculate_mae_ok.
Qed.


End Batch.

(** ** The sign of the results *)

Section Sign.

Lemma shr_record_of_loc_m (m : Z) (l : location) : shr_m (shr_record_of_loc m l) = m.
Proof. by destruct l as [|[]]. Qed.

Lemma shr_fexp_nonneg (m e : Z) (l : location) :
  0 <= m -> 0 <= shr_m (shr_fexp prec emax m e l).1.
Proof.
  intros Hm. unfold shr_fexp, shr.
  destruct (fexp prec emax (Zdigits2 m + e) - e) as [|p|p]; simpl;
    [| apply iter_shr_1_nonneg |]; by rewrite shr_record_of_loc_m.
Qed.

Lemma binary_round_aux_nonneg (mx ex : Z) (lx : location) :
  0 <= mx -> nonnegative (binary_round_aux prec emax false mx ex lx) = true.
Proof.
  intros Hm. unfold binary_round_aux.
  pose proof (shr_fexp_nonneg mx ex lx Hm) as H1.
  destruct (shr_fexp prec emax mx ex lx) as [mrs' e']. simpl in H1.
  pose proof (round_nearest_even_bounds (shr_m mrs') (loc_of_shr_record mrs')) as Hr.
  pose proof (shr_fexp_nonneg
    (round_nearest_even (shr_m mrs') (loc_of_shr_record mrs')) e' loc_Exact) as H2.
  destruct (shr_fexp prec emax _ e' loc_Exact) as [mrs'' e'']. simpl in H2.
  destruct (shr_m mrs'') as [|m|m]; [done| by destruct (e'' <=? emax - prec) | lia].
Qed.

Lemma binary_round_nonneg (m : positive) (e : Z) :
  nonnegative (binary_round prec emax false m e) = true.
Proof.
  unfold binary_round. destruct (shl_align _ _ _) as [mz ez].
  by apply binary_round_aux_nonneg.
Qed.

Lemma add_nonnegative (x y : float) :
  nonnegative x = true -> nonnegative y = true -> nonnegative (add x y) = true.
Proof.
  destruct x as [[]|[]| |[] mx ex], y as [[]|[]| |[] my ey]; try done.
  intros _ _. unfold add, SFadd. cbn [cond_Zopp].
  change (Z.pos ?a + Z.pos ?b) with (Z.pos (a + b)). cbn [binary_normalize].
  apply binary_round_nonneg.
Qed.

Lemma div_nonnegative (x : float) (m : positive) (e : Z) :
  nonnegative x = true -> nonnegative (div x (S754_finite false m e)) = true.
Proof.
  destruct x as [[]|[]| |[] mx ex]; try done.
  intros _. unfold div, SFdiv, SFdiv_core_binary.
  destruct (Z.div_eucl _ _) as [q r] eqn:Hqr. cbn [xorb].
  apply binary_round_aux_nonneg.
  match type of Hqr with Z.div_eucl ?a ?b = _ =>
    assert (Hq : q = a / b) by (unfold Z.div; by rewrite Hqr);
    assert (Ha : 0 <= a)
  end.
  { destruct (ex - e - _) as [|p|p]; [done| |done].
    apply Z.shiftl_nonneg. done. }
  rewrite Hq. by apply Z.div_pos.
Qed.

Lemma of_Z_nonnegative (z : Z) :
  0 <= z -> nonnegative (of_Z z) = true.
Proof.
  intros Hz. destruct (decide (z = 0)) as [->|]; [done|].
  by destruct (of_Z_shape z) as [(m & e & ->)| ->]; [lia|..].
Qed.

Lemma total_after_nonnegative (a b : dict) (t : float) (ks : list string) :
  nonnegative t = true -> nonnegative (total_after a b t ks) = true.
Proof.
  unfold total_after. revert t. induction ks as [|k ks IH]; intros t Ht; [done|].
  simpl. apply IH, add_nonnegative; [done|].
  apply of_Z_nonnegative, abs_diff_nonneg.
Qed.

Lemma float_truediv_int_nonnegative (t : float) (n : Z) (m : float) :
  0 < n -> nonnegative t = true -> float_truediv_int t n = Ok m ->
  nonnegative m = true.
Proof.
  intros Hn Ht. unfold float_truediv_int, py_float.
  destruct (of_Z_shape n Hn) as [(mn & en & ->)| ->]; simpl; [|done].
  intros [= <-]. by apply div_nonnegative.
Qed.

Lemma dict_setitem_Forall (P : string * Z -> Prop) (d : dict) (k : string) (v : Z) :
  Forall P d -> (forall k', P (k', v)) -> Forall P (dict_setitem d k v).
Proof.
  intros Hd Hv. induction Hd as [|[k' v'] d Hkv Hd IH]; simpl.
  - apply Forall_cons_2; [apply Hv | apply Forall_nil_2].
  - case_decide; apply Forall_cons_2; done.
Qed.

Lemma diffs_after_nonneg (a b d : dict) (ks : list string) :
  Forall (fun kv => 0 <= kv.2) d ->
  Forall (fun kv => 0 <= kv.2) (diffs_after a b d ks).
Proof.
  unfold diffs_after. revert d. induction ks as [|k ks IH]; intros d Hd; [done|].
  simpl. apply IH, dict_setitem_Forall; [done|].
  intros k'. apply abs_diff_nonneg.
Qed.




End Sign.

(** ** The thresholds of [interpret_mae] *)

Section Tiers.

Lemma leb_Qle (x y : float) (qx qy : Q) :
  valid x = true -> valid y = true ->
  to_Q x = Some qx -> to_Q y = Some qy ->
  leb x y = true <-> (qx <= qy)%Q.
Proof.
  intros Hx Hy Hqx Hqy.
  rewrite (to_Q_scaled x qx), (to_Q_scaled y qy) by done.
  rewrite Qmult_le_r, <- Zle_Qle by apply pow2Q_pos.
  unfold leb, SFleb.
  rewrite SFcompare_scaled by eauto using to_Q_is_real.
  unfold Z.le. by destruct (scaled x ?= scaled y).
Qed.

Lemma ltb_cases (x y : float) (qx qy : Q) :
  valid x = true -> valid y = true ->
  to_Q x = Some qx -> to_Q y = Some qy ->
  (ltb x y = true /\ (qx < qy)%Q) \/ (ltb x y = false /\ (qy <= qx)%Q).
Proof.
  intros Hx Hy Hqx Hqy.
  destruct (ltb x y) eqn:E; [left | right]; (split; [done|]).
  - by apply (ltb_Qlt x y).
  - by apply (ltb_Qle x y).
Qed.

Lemma ltb_lit_0_50 (x : float) (q : Q) :
  valid x = true -> to_Q x = Some q ->
  (ltb x lit_0_50 = true /\ (q < 1 # 2)%Q) \/
  (ltb x lit_0_50 = false /\ (1 # 2 <= q)%Q).
Proof.
  intros Hx Hq.
  assert (Hl : (inject_Z 4503599627370496 * 2 ^ (-53) == 1 # 2)%Q) by done.
  rewrite <- Hl. by apply ltb_cases.
Qed.

Lemma ltb_lit_0_75 (x : float) (q : Q) :
  valid x = true -> to_Q x = Some q ->
  (ltb x lit_0_75 = true /\ (q < 3 # 4)%Q) \/
  (ltb x lit_0_75 = false /\ (3 # 4 <= q)%Q).
Proof.
  intros Hx Hq.
  assert (Hl : (inject_Z 6755399441055744 * 2 ^ (-53) == 3 # 4)%Q) by done.
  rewrite <- Hl. by apply ltb_cases.
Qed.

Lemma ltb_lit_1_00 (x : float) (q : Q) :
  valid x = true -> to_Q x = Some q ->
  (ltb x lit_1_00 = true /\ (q < 1)%Q) \/ (ltb x lit_1_00 = false /\ (1 <= q)%Q).
Proof.
  intros Hx Hq.
  assert (Hl : (inject_Z 4503599627370496 * 2 ^ (-52) == 1)%Q) by done.
  rewrite <- Hl. by apply ltb_cases.
Qed.

Lemma interpret_mae_leb (mae1 mae2 : float) :
  leb mae1 mae2 = true ->
  (tier_rank (interpret_mae mae1) <= tier_rank (interpret_mae mae2))%nat.
Proof.
  intros Hle. unfold interpret_mae.
  pose proof (leb_ltb_trans mae1 mae2 lit_0_50 Hle) as H50.
  pose proof (leb_ltb_trans mae1 mae2 lit_0_75 Hle) as H75.
  pose proof (leb_ltb_trans mae1 mae2 lit_1_00 Hle) as H100.
  destruct (ltb mae2 lit_0_50); [rewrite H50 by done; done|].
  destruct (ltb mae2 lit_0_75).
  { rewrite H75 by done. destruct (ltb mae1 lit_0_50); vm_compute; lia. }
  destruct (ltb mae2 lit_1_00).
  { rewrite H100 by done.
    destruct (ltb mae1 lit_0_50), (ltb mae1 lit_0_75); vm_compute; lia. }
  destruct (ltb mae1 lit_0_50), (ltb mae1 lit_0_75), (ltb mae1 lit_1_00);
    vm_compute; lia.
Qed.

End Tiers.

(** ** Deciding the hypotheses on given inputs *)

Section Decide.

Lemma key_set_intro (a b : dict) :
  bool_decide (key_set a = key_set b) = true -> key_set a = key_set b.
Proof. apply bool_decide_eq_true_1. Qed.

Lemma key_set_neq_intro (a b : dict) :
  bool_decide (key_set a ≠ key_set b) = true -> key_set a ≠ key_set b.
Proof. apply bool_decide_eq_true_1. Qed.

Lemma in_float_range_intro (a b : dict) :
  forallb (fun k => bool_decide (abs_diff a b k < FLOAT_OVERFLOW)) (keys a) = true ->
  in_float_range a b.
Proof.
  intros H k Hk. rewrite forallb_forall in H.
  apply list_elem_of_In, H in Hk. by apply bool_decide_eq_true_1 in Hk.
Qed.

Lemma wf_dict_intro (d : dict) :
  bool_decide (NoDup (keys d)) = true -> len d <= PY_SSIZE_T_MAX -> wf_dict d.
Proof. intros H%bool_decide_eq_true_1 Hl. by split. Qed.

Lemma comparable_intro (c : chat) :
  bool_decide (NoDup (keys (ai_scores c))) = true ->
  len (ai_scores c) <= PY_SSIZE_T_MAX ->
  bool_decide (key_set (ai_scores c) = key_set (human_scores c)) = true ->
  forallb
    (fun k => bool_decide (abs_diff (ai_scores c) (human_scores c) k < FLOAT_OVERFLOW))
    (keys (ai_scores c)) = true ->
  comparable c.
Proof.
  intros H1 H2 H3 H4. split; [by apply wf_dict_intro|].
  split; [by apply key_set_intro | by apply in_float_range_intro].
Qed.

End Decide.

(** ** The properties of the three entry points

    The specification calls [calculate_mae] compare, [interpret_mae]
    classify and [calculate_batch_mae] compareBatch; its ScoreSet is a
    [dict], its ComparisonResult a [MAEResult], and its InvalidInputError
    the [ValueError] with the message [MISMATCH]. *)

(** C1. When [a] and [b] have the same keys and every [|a[k] - b[k]|]
    converts to [float], [calculate_mae a b] returns a result whose
    [kpi_differences] has the keys of [a] and maps each key [k] to
    [|a[k] - b[k]|], whose [num_kpis] is the number of keys, and whose
    [total_difference] is exactly the sum of the [|a[k] - b[k]|] whenever
    that sum is at most [2 ^ 53]. *)
Theorem calculate_mae_differences (a b : dict) :
  wf_dict a -> key_set a = key_set b -> in_float_range a b ->
  exists r, calculate_mae a b = Ok r /\
    keys (kpi_differences r) = keys a /\
    (forall k, k ∈ keys a ->
       dict_get (kpi_differences r) k = Some (abs_diff a b k)) /\
    num_kpis r = Z.of_nat (size (key_set a)) /\
    (sum_abs_diff a b <= 2 ^ 53 ->
       represents (total_difference r) (sum_abs_diff a b)).
Proof.
  intros [Hnd Hlen] Hkeys Hrange. exists (mae_result a b).
  split; [by apply calculate_mae_ok|].
  cbn [mae_result total_difference kpi_differences num_kpis].
  rewrite diffs_after_fresh by (done || (intros ? _; apply not_elem_of_nil)).
  rewrite app_nil_l, keys_fmap.
  split; [done|]. split; [|split].
  - intros k Hk. by apply (dict_get_fmap (abs_diff a b)).
  - unfold key_set, keys, len in *. by rewrite size_list_to_set, length_fmap.
  - intros Hsum. rewrite total_exact by done.
    apply represents_of_Z. split; [apply sum_abs_diff_nonneg | done].
Qed.

(** The module's own example: differences of 1 at two keys out of six. *)
Lemma calculate_mae_differences_witness :
  exists r, calculate_mae example_ai example_human = Ok r /\
    represents (total_difference r) 2 /\
    dict_get (kpi_differences r) "Sentiment" = Some 1 /\
    num_kpis r = 6.
Proof.
  destruct (calculate_mae_differences example_ai example_human)
    as (r & Hr & _ & Hd & Hn & Ht).
  - apply wf_dict_intro; by vm_compute.
  - apply key_set_intro; by vm_compute.
  - apply in_float_range_intro; by vm_compute.
  - exists r. split; [exact Hr|]. split; [|split].
    + apply Ht. by vm_compute.
    + apply (Hd "Sentiment"). by apply (bool_decide_eq_true_1 _); vm_compute.
    + rewrite Hn. by vm_compute.
Defined.

(** C1 does not extend beyond [2 ^ 53]: here the differences sum to
    [2 ^ 53 + 1], which no binary64 value denotes, and the total returned
    is [2 ^ 53]. *)
Lemma calculate_mae_total_rounds :
  key_set rounding_ai = key_set rounding_human /\
  ~ exists r, calculate_mae rounding_ai rounding_human = Ok r /\
      represents (total_difference r) (sum_abs_diff rounding_ai rounding_human).
Proof.
  split; [apply key_set_intro; by vm_compute|].
  intros (r & Hr & q & Hq & Heq).
  vm_compute in Hr. injection Hr as <-.
  cbn [total_difference to_Q] in Hq. injection Hq as <-.
  vm_compute in Heq. done.
Qed.

(** C2. When [a] and [b] have the same keys and every [|a[k] - b[k]|]
    converts to [float], [calculate_mae a b] returns a result with
    [num_kpis] the size of [a] and [mae] equal to
    [total_difference / num_kpis] when [num_kpis > 0] and to [0.0] when
    [num_kpis] is 0. Whatever the inputs, a returned result satisfies these
    equations and [ZeroDivisionError] is never raised; on two empty dicts
    the call returns [mae = 0.0] and [num_kpis = 0]. *)
Theorem calculate_mae_mean :
  (forall a b : dict,
      wf_dict a -> key_set a = key_set b -> in_float_range a b ->
      exists r, calculate_mae a b = Ok r /\ num_kpis r = len a /\
        (num_kpis r > 0 ->
           mae r = div (total_difference r) (of_Z (num_kpis r))) /\
        (num_kpis r = 0 -> mae r = lit_0_0)) /\
  (forall (a b : dict) (r : MAEResult),
      calculate_mae a b = Ok r ->
      num_kpis r = len a /\
      (num_kpis r > 0 ->
         mae r = div (total_difference r) (of_Z (num_kpis r))) /\
      (num_kpis r = 0 -> mae r = lit_0_0)) /\
  (forall a b : dict, calculate_mae a b ≠ Raise ZeroDivisionError) /\
  (exists r, calculate_mae [] [] = Ok r /\ mae r = lit_0_0 /\ num_kpis r = 0).
Proof.
  assert (Hres : forall a b,
    num_kpis (mae_result a b) = len a /\
    (num_kpis (mae_result a b) > 0 ->
       mae (mae_result a b) =
         div (total_difference (mae_result a b)) (of_Z (num_kpis (mae_result a b)))) /\
    (num_kpis (mae_result a b) = 0 -> mae (mae_result a b) = lit_0_0)).
  { intros a b. cbn [mae_result num_kpis mae total_difference]. unfold mae_of.
    split; [done|]. split; intros Hn; case_decide; (done || lia). }
  split; [|split; [|split]].
  - intros a b [_ Hlen] Hkeys Hrange. exists (mae_result a b).
    split; [by apply calculate_mae_ok | apply Hres].
  - intros a b r [_ ->]%calculate_mae_sound. apply Hres.
  - intros a b [[? _]|[? _]]%calculate_mae_error; done.
  - by eexists.
Qed.

(** The module's own example, and its mean of 2 over 6 keys. *)
Lemma calculate_mae_mean_witness :
  exists r, calculate_mae example_ai example_human = Ok r /\ num_kpis r = 6 /\
    mae r = div (total_difference r) (of_Z (num_kpis r)).
Proof.
  destruct (proj1 calculate_mae_mean example_ai example_human)
    as (r & Hr & Hn & Hm & _).
  - apply wf_dict_intro; by vm_compute.
  - apply key_set_intro; by vm_compute.
  - apply in_float_range_intro; by vm_compute.
  - exists r. split; [exact Hr|]. split; [exact Hn|]. apply Hm. by rewrite Hn.
Defined.

(** C2 needs the differences to convert: with a difference of [2 ^ 1024]
    no result is returned although the keys agree. *)
Lemma calculate_mae_no_result :
  key_set overflow_ai = key_set overflow_human /\
  ~ exists r, calculate_mae overflow_ai overflow_human = Ok r.
Proof.
  split; [apply key_set_intro; by vm_compute|].
  intros [r Hr]. by vm_compute in Hr.
Qed.

(** C3. [calculate_mae a b] raises [ValueError] with the message [MISMATCH]
    if and only if the key sets differ. The only other exception it can
    raise is [OverflowError], when the keys agree and some [|a[k] - b[k]|]
    does not convert to [float]: it returns a result exactly when the key
    sets are equal and every [|a[k] - b[k]|] is below [2 ^ 1024 - 2 ^ 970],
    which are the non-negative integers that [float] converts. *)
Theorem calculate_mae_failures (a b : dict) :
  (calculate_mae a b = Raise (ValueError MISMATCH) <-> key_set a ≠ key_set b) /\
  (forall e, calculate_mae a b = Raise e ->
     e = ValueError MISMATCH \/ (e = OverflowError /\ key_set a = key_set b)) /\
  (wf_dict a ->
     (exists r, calculate_mae a b = Ok r) <->
     key_set a = key_set b /\ in_float_range a b) /\
  (forall z, 0 <= z -> (exists x, py_float z = Ok x) <-> z < 2 ^ 1024 - 2 ^ 970).
Proof.
  split; [split|split; [|split]].
  - intros [[_ ?]|[? _]]%calculate_mae_error; done.
  - apply calculate_mae_mismatch.
  - intros e [[-> _]|[-> ?]]%calculate_mae_error; auto.
  - intros [_ Hlen]. split.
    + intros [r Hr]. split; [by apply (calculate_mae_sound a b r)|].
      by apply (calculate_mae_in_float_range a b r).
    + intros [Hkeys Hrange]. exists (mae_result a b). by apply calculate_mae_ok.
  - intros z Hz. split.
    + intros [x Hx]. by apply (py_float_lt z x).
    + intros Hlt. exists (of_Z z). by apply py_float_ok.
Qed.

(** A mismatch raises the [ValueError]; the module's own example returns. *)
Lemma calculate_mae_failures_witness :
  calculate_mae other_ai bad_human = Raise (ValueError MISMATCH) /\
  exists r, calculate_mae example_ai example_human = Ok r.
Proof.
  split.
  - apply (proj1 (calculate_mae_failures other_ai bad_human)).
    apply key_set_neq_intro; by vm_compute.
  - apply (proj1 (proj2 (proj2 (calculate_mae_failures example_ai example_human)))).
    + apply wf_dict_intro; by vm_compute.
    + split; [apply key_set_intro | apply in_float_range_intro]; by vm_compute.
Defined.

(** C3 has a second exception: the keys agree and yet the call raises, and
    what it raises is not the [ValueError]. *)
Lemma calculate_mae_overflow_error :
  key_set huge_ai = key_set huge_human /\
  calculate_mae huge_ai huge_human = Raise OverflowError.
Proof. split; [apply key_set_intro|]; by vm_compute. Qed.

(** C4. On every binary64 value [x] that denotes a rational [q],
    [interpret_mae x] is the Excellent label exactly when [q < 0.50], the
    Good label exactly when [0.50 <= q < 0.75], the Acceptable label exactly
    when [0.75 <= q < 1.00] and the Poor label exactly when [q >= 1.00]; a
    negative [q] is Excellent. Every float receives one of the four labels,
    and the literals 0.49, 0.50, 0.74, 0.75, 0.99 and 1.00 receive
    Excellent, Good, Good, Acceptable, Acceptable and Poor. *)
Theorem interpret_mae_tiers :
  (forall (x : float) (q : Q),
      valid x = true -> to_Q x = Some q ->
      (interpret_mae x = EXCELLENT <-> (q < 1 # 2)%Q) /\
      (interpret_mae x = GOOD <-> (1 # 2 <= q)%Q /\ (q < 3 # 4)%Q) /\
      (interpret_mae x = ACCEPTABLE <-> (3 # 4 <= q)%Q /\ (q < 1)%Q) /\
      (interpret_mae x = POOR <-> (1 <= q)%Q) /\
      ((q < 0)%Q -> interpret_mae x = EXCELLENT)) /\
  (forall x : float, interpret_mae x ∈ [EXCELLENT; GOOD; ACCEPTABLE; POOR]) /\
  interpret_mae (literal 49 100) = EXCELLENT /\
  interpret_mae (literal 50 100) = GOOD /\
  interpret_mae (literal 74 100) = GOOD /\
  interpret_mae (literal 75 100) = ACCEPTABLE /\
  interpret_mae (literal 99 100) = ACCEPTABLE /\
  interpret_mae (literal 100 100) = POOR.
Proof.
  split; [|split; [|by vm_compute]].
  - intros x q Hx Hq. unfold interpret_mae.
    destruct (ltb_lit_0_50 x q Hx Hq) as [[E50 H50]|[E50 H50]];
      destruct (ltb_lit_0_75 x q Hx Hq) as [[E75 H75]|[E75 H75]];
      destruct (ltb_lit_1_00 x q Hx Hq) as [[E100 H100]|[E100 H100]];
      rewrite E50, ?E75, ?E100;
      repeat split; intros; try done; try lra.
  - intros x. unfold interpret_mae.
    destruct (ltb x lit_0_50), (ltb x lit_0_75), (ltb x lit_1_00); set_solver.
Qed.

(** The literal [0.75] is the least Acceptable value. *)
Lemma interpret_mae_tiers_witness :
  interpret_mae lit_0_75 = ACCEPTABLE.
Proof.
  apply (proj1 interpret_mae_tiers lit_0_75
           (inject_Z 6755399441055744 * 2 ^ (-53))%Q); [done | done |].
  split; [done | by vm_compute].
Defined.




(** C6. A batch with a record whose key sets differ raises and returns
    nothing. What it raises is what [calculate_mae] raises on the first
    record on which it raises, so the [ValueError] of the mismatch when
    every earlier record compares. The exception is that of
    [calculate_mae], with no identifier or index of the record. *)
Theorem calculate_batch_mae_fail_fast (py_sum : list float -> float) :
  (forall chats : list chat,
      Exists (fun c => key_set (ai_scores c) ≠ key_set (human_scores c)) chats ->
      exists e, calculate_batch_mae py_sum chats = Raise e) /\
  (forall (pre post : list chat) (c : chat) (e : exn),
      Forall (fun c' => exists r, compares_to c' r) pre ->
      calculate_mae (ai_scores c) (human_scores c) = Raise e ->
      calculate_batch_mae py_sum (pre ++ c :: post) = Raise e) /\
  (forall (pre post : list chat) (c : chat),
      Forall (fun c' => exists r, compares_to c' r) pre ->
      key_set (ai_scores c) ≠ key_set (human_scores c) ->
      calculate_batch_mae py_sum (pre ++ c :: post) =
        Raise (ValueError MISMATCH)).
Proof.
  split; [|split].
  - intros chats Hex.
    destruct (first_failure chats) as [Hall|(pre & c & post & e & -> & Hpre & Hc)].
    + apply Exists_exists in Hex as (c & Hin & Hne).
      rewrite Forall_forall in Hall. destruct (Hall c Hin) as [r Hr].
      unfold compares_to in Hr. by rewrite calculate_mae_mismatch in Hr.
    + exists e. by apply calculate_batch_mae_raise.
  - apply calculate_batch_mae_raise.
  - intros pre post c Hpre Hne.
    apply calculate_batch_mae_raise; [done | by apply calculate_mae_mismatch].
Qed.

(** A mismatch in the second of three records. *)
Lemma calculate_batch_mae_fail_fast_witness :
  calculate_batch_mae left_sum [example_chat; bad_chat; other_chat] =
    Raise (ValueError MISMATCH).
Proof.
  apply (proj2 (proj2 (calculate_batch_mae_fail_fast left_sum))
           [example_chat] [other_chat]).
  - apply Forall_cons_2; [|apply Forall_nil_2]. eexists. by vm_compute.
  - apply key_set_neq_intro; by vm_compute.
Defined.

(** C6 cannot promise the record: a batch failing at its first record, of
    one identifier, and a batch failing at its second record, of another,
    raise the very same exception. *)
Lemma calculate_batch_mae_error_anonymous :
  first_mismatch [bad_chat; example_chat] = Some 0%nat /\
  first_mismatch [example_chat; bad_chat'] = Some 1%nat /\
  chat_id bad_chat ≠ chat_id bad_chat' /\
  calculate_batch_mae left_sum [bad_chat; example_chat] =
    Raise (ValueError MISMATCH) /\
  calculate_batch_mae left_sum [example_chat; bad_chat'] =
    Raise (ValueError MISMATCH).
Proof. repeat split; by vm_compute. Qed.

(** C7. When [a] and [b] have the same keys and the sum of the
    [|a[k] - b[k]|] is at most [2 ^ 53], [calculate_mae a b] and
    [calculate_mae b a] return the same [mae]. *)
Theorem calculate_mae_symmetric (a b : dict) :
  wf_dict a -> wf_dict b -> key_set a = key_set b ->
  sum_abs_diff a b <= 2 ^ 53 ->
  exists r1 r2, calculate_mae a b = Ok r1 /\ calculate_mae b a = Ok r2 /\
    mae r1 = mae r2.
Proof.
  intros [Ha Hla] [Hb Hlb] Hkeys Hsum.
  pose proof (sum_abs_diff_sym a b Ha Hb Hkeys) as Hsym.
  exists (mae_result a b), (mae_result b a).
  split; [by apply calculate_mae_ok; [| apply exact_in_float_range |]|].
  split; [apply calculate_mae_ok; [done | apply exact_in_float_range; lia | done]|].
  cbn [mae_result mae]. rewrite !total_exact, Hsym by lia.
  f_equal. unfold len. f_equal.
  rewrite <- !(length_fmap fst). apply Permutation_length. by apply keys_perm.
Qed.

(** The module's own example, compared both ways. *)
Lemma calculate_mae_symmetric_witness :
  exists r1 r2, calculate_mae example_ai example_human = Ok r1 /\
    calculate_mae example_human example_ai = Ok r2 /\ mae r1 = mae r2.
Proof.
  apply calculate_mae_symmetric.
  - apply wf_dict_intro; by vm_compute.
  - apply wf_dict_intro; by vm_compute.
  - apply key_set_intro; by vm_compute.
  - by vm_compute.
Defined.

(** C7 does not extend beyond [2 ^ 53]: the two dicts list the same keys
    in different orders, the float total depends on the order, and the two
    [mae] values differ. *)
Lemma calculate_mae_order_dependent :
  key_set order_ai = key_set order_human /\
  exists r1 r2, calculate_mae order_ai order_human = Ok r1 /\
    calculate_mae order_human order_ai = Ok r2 /\
    eqb (mae r1) (mae r2) = false.
Proof.
  split; [apply key_set_intro; by vm_compute|].
  do 2 eexists. split; [by vm_compute|]. split; by vm_compute.
Qed.

(** C8. For every dict [a], [calculate_mae a a] returns [mae = 0.0] and the
    Excellent label. *)
Theorem calculate_mae_self (a : dict) :
  wf_dict a ->
  exists r, calculate_mae a a = Ok r /\ mae r = lit_0_0 /\
    interpretation r = EXCELLENT.
Proof.
  intros [_ Hlen].
  assert (Hsum : sum_abs_diff a a = 0).
  { unfold sum_abs_diff. induction (keys a) as [|k ks IH]; [done|].
    rewrite fmap_cons, sum_Z_cons, IH. unfold abs_diff. lia. }
  exists (mae_result a a).
  split.
  { apply calculate_mae_ok; [done | | done].
    apply exact_in_float_range. by rewrite Hsum. }
  cbn [mae_result mae interpretation].
  rewrite total_exact, Hsum by (by rewrite Hsum).
  assert (Hm : mae_of (of_Z 0) (len a) = lit_0_0).
  { unfold mae_of. case_decide; [|done].
    apply div_zero_pos. pose proof PY_SSIZE_T_MAX_lt. lia. }
  by rewrite Hm.
Qed.

(** The AI scores of the module's own example against themselves. *)
Lemma calculate_mae_self_witness :
  exists r, calculate_mae example_ai example_ai = Ok r /\ mae r = lit_0_0 /\
    interpretation r = EXCELLENT.
Proof. apply calculate_mae_self. apply wf_dict_intro; by vm_compute. Defined.

(** C9. [calculate_batch_mae] returns on every list of records that each
    have the same keys in both dicts and differences that convert to
    [float], whatever the keys of one record are to those of another; and
    it raises a [ValueError] only when the two dicts of one record differ
    in their keys. *)
Theorem calculate_batch_mae_per_record (py_sum : list float -> float) :
  (forall chats : list chat,
      len chats <= PY_SSIZE_T_MAX -> Forall comparable chats ->
      exists avg rs, calculate_batch_mae py_sum chats = Ok (avg, rs)) /\
  (forall (chats : list chat) (msg : string),
      calculate_batch_mae py_sum chats = Raise (ValueError msg) ->
      Exists (fun c => key_set (ai_scores c) ≠ key_set (human_scores c)) chats).
Proof.
  split.
  - intros chats Hlen Hall.
    destruct (compares_all chats) as [rs Hrs].
    { eapply Forall_impl; [done|]. apply comparable_compares. }
    exists (batch_average py_sum rs), rs. by apply calculate_batch_mae_ok.
  - intros chats msg Hb.
    destruct (first_failure chats) as [Hall|(pre & c & post & e & -> & Hpre & Hc)].
    + destruct (compares_all chats Hall) as [rs Hrs].
      unfold calculate_batch_mae in Hb.
      rewrite (batch_loop_ok _ rs) in Hb by done. simpl in Hb.
      destruct rs; [done|].
      destruct (float_truediv_int _ _) eqn:Hdiv; [done|].
      simpl in Hb. injection Hb as ->.
      apply float_truediv_int_error in Hdiv; [done|].
      unfold len. simpl. lia.
    + rewrite (calculate_batch_mae_raise py_sum pre post c e) in Hb by done.
      injection Hb as ->.
      apply calculate_mae_error in Hc as [[_ Hne]|[? _]]; [|done].
      apply Exists_app. right. by left.
Qed.

(** Two records with disjoint key sets of sizes 6 and 1. *)
Lemma calculate_batch_mae_per_record_witness :
  key_set (ai_scores example_chat) ## key_set (ai_scores other_chat) /\
  exists avg rs,
    calculate_batch_mae left_sum [example_chat; other_chat] = Ok (avg, rs).
Proof.
  split; [by apply (bool_decide_eq_true_1 _); vm_compute|].
  apply (proj1 (calculate_batch_mae_per_record left_sum)).
  - by vm_compute.
  - repeat (apply Forall_cons_2; [apply comparable_intro; by vm_compute|]).
    apply Forall_nil_2.
Defined.

(** C9 needs the differences to convert: both records agree on their keys
    and the batch returns nothing. *)
Lemma calculate_batch_mae_overflow :
  Forall (fun c => key_set (ai_scores c) = key_set (human_scores c))
    [huge_chat; other_chat] /\
  ~ exists avg rs,
      calculate_batch_mae left_sum [huge_chat; other_chat] = Ok (avg, rs).
Proof.
  split.
  { repeat (apply Forall_cons_2; [apply key_set_intro; by vm_compute|]).
    apply Forall_nil_2. }
  intros (avg & rs & H). by vm_compute in H.
Qed.

(** C10. [interpret_mae] is monotone: when [mae1 <= mae2], as floats or as
    the rationals they denote, the label of [mae1] is at least as good as
    the label of [mae2]. *)
Theorem interpret_mae_monotone :
  (forall mae1 mae2 : float,
      leb mae1 mae2 = true ->
      (tier_rank (interpret_mae mae1) <= tier_rank (interpret_mae mae2))%nat) /\
  (forall (mae1 mae2 : float) (q1 q2 : Q),
      valid mae1 = true -> valid mae2 = true ->
      to_Q mae1 = Some q1 -> to_Q mae2 = Some q2 -> (q1 <= q2)%Q ->
      (tier_rank (interpret_mae mae1) <= tier_rank (interpret_mae mae2))%nat).
Proof.
  split; [apply interpret_mae_leb|].
  intros mae1 mae2 q1 q2 H1 H2 Hq1 Hq2 Hle.
  apply interpret_mae_leb. by apply (leb_Qle mae1 mae2 q1 q2).
Qed.

(** [0.50 <= 1.00], and Good is no worse than Poor. *)
Lemma interpret_mae_monotone_witness :
  (tier_rank (interpret_mae lit_0_50) <= tier_rank (interpret_mae lit_1_00))%nat.
Proof. apply (proj1 interpret_mae_monotone). by vm_compute. Defined.

(** ** Further properties of the calculator, of its report and of the
    dashboard *)

(** *** The order of the keys *)

Section Permutation.

Lemma dict_get_Some (d : dict) (k : string) (v : Z) :
  NoDup (keys d) -> dict_get d k = Some v <-> (k, v) ∈ d.
Proof.
  unfold keys. induction d as [|[k' v'] d IH]; simpl.
  - intros _. split; [done | by intros ?%elem_of_nil].
  - intros [Hk Hnd]%NoDup_cons. rewrite elem_of_cons. case_decide as Hkk.
    + subst k'. split; [intros [= ->]; by left|].
      intros [[= ->]|Hin]; [done|]. destruct Hk.
      apply list_elem_of_fmap. by exists (k, v).
    + rewrite IH by done. split; [by right|].
      intros [[= ? ?]|?]; [congruence | done].
Qed.

Lemma dict_get_perm (d d' : dict) (k : string) :
  NoDup (keys d) -> d ≡ₚ d' -> dict_get d k = dict_get d' k.
Proof.
  intros Hnd Hp.
  assert (Hnd' : NoDup (keys d')) by (unfold keys in *; by rewrite <- Hp).
  apply option_eq. intros v. rewrite !dict_get_Some by done. by rewrite Hp.
Qed.

Lemma key_set_perm (d d' : dict) : d ≡ₚ d' -> key_set d = key_set d'.
Proof.
  intros Hp. apply key_set_eq. intros k. unfold keys. by rewrite Hp.
Qed.

Lemma mae_loop_ext (a a' b b' : dict) (ks : list string) (st : dict * float) :
  (forall k, dict_get a k = dict_get a' k) ->
  (forall k, dict_get b k = dict_get b' k) ->
  mae_loop a b ks st = mae_loop a' b' ks st.
Proof.
  intros Ha Hb. revert st. induction ks as [|k ks IH]; intros st; [done|].
  simpl. unfold dict_getitem. rewrite Ha, Hb.
  destruct (dict_get a' k); [|done]. destruct (dict_get b' k); [|done]. simpl.
  destruct (float_add_int _ _); [|done]. simpl. apply IH.
Qed.

End Permutation.

(** X1. The insertion order of [human_scores] is irrelevant: on a dict with
    the same items in another order [calculate_mae] gives the same outcome,
    the whole result or the exception. *)
Theorem calculate_mae_human_order (a b b' : dict) :
  NoDup (keys b) -> b ≡ₚ b' -> calculate_mae a b = calculate_mae a b'.
Proof.
  intros Hnd Hp. unfold calculate_mae.
  rewrite (key_set_perm b b' Hp).
  rewrite (mae_loop_ext a a b b'); [done..|].
  intros k. by apply dict_get_perm.
Qed.

Lemma calculate_mae_human_order_witness :
  calculate_mae example_ai example_human =
  calculate_mae example_ai (reverse example_human).
Proof.
  apply calculate_mae_human_order.
  - apply (bool_decide_unpack _). by vm_compute.
  - symmetry. apply reverse_Permutation.
Defined.

Lemma abs_diff_ext (a a' b b' : dict) (k : string) :
  dict_get a k = dict_get a' k -> dict_get b k = dict_get b' k ->
  abs_diff a b k = abs_diff a' b' k.
Proof. intros Ha Hb. unfold abs_diff, score. by rewrite Ha, Hb. Qed.

Lemma sum_abs_diff_perm (a a' b : dict) :
  NoDup (keys a) -> a ≡ₚ a' -> sum_abs_diff a' b = sum_abs_diff a b.
Proof.
  intros Hnd Hp. unfold sum_abs_diff.
  rewrite (sum_Z_perm _ (abs_diff a' b <$> keys a))
    by (apply fmap_Permutation; unfold keys; by rewrite Hp).
  f_equal. apply list_fmap_ext. intros _ k _.
  apply abs_diff_ext; [symmetry; by apply dict_get_perm | done].
Qed.

Lemma mae_result_differences (a b : dict) :
  NoDup (keys a) ->
  kpi_differences (mae_result a b) = (fun k => (k, abs_diff a b k)) <$> keys a.
Proof.
  intros Hnd. simpl. rewrite diffs_after_fresh; [done..|].
  intros k _. apply not_elem_of_nil.
Qed.

(** X2. The insertion order of [ai_scores] is irrelevant while the sum of
    the differences is at most [2 ^ 53]: on a dict with the same items in
    another order [calculate_mae] returns the same [mae],
    [total_difference], [num_kpis] and [interpretation], and the same
    [kpi_differences] up to their order. *)
Theorem calculate_mae_ai_order (a a' b : dict) :
  wf_dict a -> a ≡ₚ a' -> key_set a = key_set b -> sum_abs_diff a b <= 2 ^ 53 ->
  exists r r', calculate_mae a b = Ok r /\ calculate_mae a' b = Ok r' /\
    mae r' = mae r /\ total_difference r' = total_difference r /\
    num_kpis r' = num_kpis r /\ interpretation r' = interpretation r /\
    kpi_differences r' ≡ₚ kpi_differences r.
Proof.
  intros [Hnd Hlen] Hp Hkeys Hsum.
  assert (Hnd' : NoDup (keys a')) by (unfold keys in *; by rewrite <- Hp).
  assert (Hlen' : len a' = len a) by (unfold len; by rewrite Hp).
  pose proof (sum_abs_diff_perm a a' b Hnd Hp) as Hsum'.
  exists (mae_result a b), (mae_result a' b).
  split; [by apply calculate_mae_ok; [| apply exact_in_float_range |]|].
  split.
  { apply calculate_mae_ok.
    - by rewrite <- (key_set_perm a a' Hp).
    - apply exact_in_float_range. by rewrite Hsum'.
    - by rewrite Hlen'. }
  assert (Ht : total_after a' b lit_0_0 (keys a') = total_after a b lit_0_0 (keys a))
    by (rewrite !total_exact by (by rewrite ?Hsum'); by rewrite Hsum').
  assert (Hm : mae (mae_result a' b) = mae (mae_result a b))
    by (simpl; by rewrite Ht, Hlen').
  split; [done|]. split; [done|]. split; [done|].
  split; [simpl in *; by rewrite Hm|].
  rewrite !mae_result_differences by done.
  rewrite (list_fmap_ext _ (fun k => (k, abs_diff a b k)) (keys a')); cycle 1.
  { intros _ k _. f_equal.
    apply abs_diff_ext; [symmetry; by apply dict_get_perm | done]. }
  apply fmap_Permutation. unfold keys. by rewrite <- Hp.
Qed.

Lemma calculate_mae_ai_order_witness :
  exists r r', calculate_mae example_ai example_human = Ok r /\
    calculate_mae (reverse example_ai) example_human = Ok r' /\
    mae r' = mae r.
Proof.
  destruct (calculate_mae_ai_order example_ai (reverse example_ai) example_human)
    as (r & r' & Hr & Hr' & Hm & _).
  - apply wf_dict_intro; by vm_compute.
  - symmetry. apply reverse_Permutation.
  - apply key_set_intro; by vm_compute.
  - by vm_compute.
  - exists r, r'. split; [exact Hr|]. split; [exact Hr' | exact Hm].
Defined.

(** *** The sign of what [calculate_mae] returns *)

(** X3. Whatever [calculate_mae] returns, its [total_difference] and its
    [mae] are [+0.0], a positive finite float or [+inf], never NaN and never
    negative, and every value of [kpi_differences] is at least 0. *)
Theorem calculate_mae_nonnegative (a b : dict) (r : MAEResult) :
  calculate_mae a b = Ok r ->
  nonnegative (total_difference r) = true /\ nonnegative (mae r) = true /\
  Forall (fun kv => 0 <= kv.2) (kpi_differences r).
Proof.
  unfold calculate_mae. case_decide as Hk; [done|].
  destruct (mae_loop _ _ _ _) as [st|] eqn:Hloop; [|done]. simpl.
  apply mae_loop_sound in Hloop as ->. simpl.
  assert (Ht : nonnegative (total_after a b lit_0_0 (keys a)) = true)
    by by apply total_after_nonnegative.
  assert (Hd : Forall (fun kv => 0 <= kv.2) (diffs_after a b [] (keys a)))
    by apply diffs_after_nonneg, Forall_nil_2.
  case_decide as Hn.
  - destruct (float_truediv_int _ _) as [m|] eqn:Hdiv; [|done]. simpl.
    intros [= <-]. simpl. split; [done|]. split; [|done].
    eapply float_truediv_int_nonnegative; [|done..]. lia.
  - simpl. intros [= <-]. done.
Qed.

Lemma calculate_mae_nonnegative_witness :
  exists r, calculate_mae example_ai example_human = Ok r /\
    nonnegative (mae r) = true.
Proof.
  eexists. split; [by vm_compute|].
  eapply (calculate_mae_nonnegative example_ai example_human). by vm_compute.
Defined.

(** *** The quotient and the tiers *)

(** Rounding to nearest, and the quotient of two floats of integers. *)
Section Division.

Lemma new_location_locates (m r : Z) :
  0 < m -> 0 <= r < m -> locates (new_location m r) r m.
Proof.
  intros Hm Hr. unfold new_location, new_location_even, new_location_odd.
  destruct (Z.even m) eqn:Hev; destruct (Z.eqb_spec r 0) as [->|Hne];
    try done; simpl.
  - destruct (Z.compare_spec (2 * r) m); simpl; lia.
  - assert (Hodd : Z.odd m = true) by (by rewrite <- Z.negb_even, Hev).
    apply Z.odd_spec in Hodd as [k ->].
    destruct (Z.compare_spec (2 * r + 1) (2 * k + 1)); simpl; lia.
Qed.

Lemma loc_of_shr_record_of_loc (q : Z) (l : location) :
  loc_of_shr_record (shr_record_of_loc q l) = l.
Proof. by destruct l as [|[]]. Qed.

Lemma round_unshifted (q r m : Z) (l : location) :
  0 < m -> 0 <= r < m -> locates l r m ->
  q <= round_nearest_even q l <= q + 1 /\
  Z.abs (2 * round_nearest_even q l * m - 2 * (q * m + r)) <= m.
Proof.
  intros Hm Hr Hl. destruct l as [|[]]; simpl in *;
    try destruct (Z.even q); split; lia.
Qed.

Lemma shr_1_s (mrs : shr_record) :
  shr_s (shr_1 mrs) = shr_r mrs || shr_s mrs.
Proof. by destruct mrs as [[|[p|p|]|[p|p|]] r s]. Qed.

Lemma shr_record_of_loc_exact (q : Z) (l : location) :
  shr_r (shr_record_of_loc q l) || shr_s (shr_record_of_loc q l) =
    match l with loc_Exact => false | _ => true end.
Proof. by destruct l as [|[]]. Qed.

Lemma round_shifted (q r m : Z) (l : location) :
  0 <= q -> 0 < m -> 0 <= r < m -> locates l r m ->
  let mrs := shr_1 (shr_record_of_loc q l) in
  let M1 := round_nearest_even (shr_m mrs) (loc_of_shr_record mrs) in
  q <= 2 * M1 + 1 /\ 2 * M1 <= q + 2 /\
  Z.abs (2 * M1 * 2 * m - 2 * (q * m + r)) <= 2 * m.
Proof.
  intros Hq Hm Hr Hl mrs M1.
  assert (Hq' : 0 <= shr_m (shr_record_of_loc q l))
    by by rewrite shr_record_of_loc_m.
  pose proof (shr_1_m _ Hq') as Hmm.
  pose proof (shr_1_r _ Hq') as Hmr.
  pose proof (shr_1_s (shr_record_of_loc q l)) as Hms.
  rewrite shr_record_of_loc_m in Hmm, Hmr.
  rewrite shr_record_of_loc_exact in Hms.
  fold mrs in Hmm, Hmr, Hms. subst M1.
  destruct mrs as [h rb sb]. cbn [shr_m shr_r shr_s] in *.
  assert (Hqh : q = 2 * h + (if Z.odd q then 1 else 0)).
  { rewrite Hmm. rewrite (Z.div_mod q 2) at 1 by done.
    by rewrite Zmod_odd. }
  set (qm := q * m) in *. set (hm := h * m) in *.
  assert (Hqm : qm = 2 * hm + (if Z.odd q then m else 0)).
  { subst qm hm. rewrite Hqh at 1. destruct (Z.odd q); ring. }
  clear Hmm. subst rb sb.
  destruct (Z.odd q), l as [|[]]; cbn [loc_of_shr_record round_nearest_even];
    simpl in Hl; try destruct (Z.even h);
    rewrite ?Z.mul_add_distr_r; fold hm; lia.
Qed.

Lemma shr_fexp_53 (q e : Z) (l : location) :
  Zdigits2 q = 53 -> -1074 <= e ->
  shr_fexp prec emax q e l = (shr_record_of_loc q l, e).
Proof.
  intros Hd He. unfold shr_fexp. rewrite Hd, fexp_eq.
  by replace (Z.max (53 + e - 53) (-1074) - e) with 0 by lia.
Qed.

Lemma shr_fexp_54 (q e : Z) (l : location) :
  Zdigits2 q = 54 -> -1075 <= e ->
  shr_fexp prec emax q e l = (shr_1 (shr_record_of_loc q l), e + 1).
Proof.
  intros Hd He. unfold shr_fexp. rewrite Hd, fexp_eq.
  by replace (Z.max (54 + e - 53) (-1074) - e) with 1 by lia.
Qed.

(** The second half of [binary_round_aux]: a mantissa that rounding has
    carried to [2 ^ 53] is brought back to 53 digits. *)
Lemma renormalize (M1 e : Z) :
  2 ^ 52 <= M1 <= 2 ^ 53 -> -1074 <= e -> e + 1 <= 971 ->
  exists (M : positive) (j : Z),
    0 <= j <= 1 /\ Zpos M * 2 ^ j = M1 /\ Zdigits2 (Zpos M) = 53 /\
    (let '(mrs, e') := shr_fexp prec emax M1 e loc_Exact in
     match shr_m mrs with
     | 0 => S754_zero false
     | Zpos m =>
         if e' <=? emax - prec then S754_finite false m e'
         else S754_infinity false
     | Zneg _ => S754_nan
     end) = S754_finite false M (e + j).
Proof.
  intros [Hlo Hhi] He1 He2. change (emax - prec) with 971.
  destruct (decide (M1 = 2 ^ 53)) as [->|Hne].
  - exists 4503599627370496%positive, 1. split; [lia|]. split; [done|].
    split; [done|].
    rewrite shr_fexp_54 by (done || lia). cbn [shr_1 shr_record_of_loc shr_m].
    change (shr_m (shr_1 _)) with 4503599627370496.
    cbv iota beta. destruct (Z.leb_spec (e + 1) 971); [done | lia].
  - assert (Hd : Zdigits2 M1 = 53) by (apply Zdigits2_bounds; [done | lia]).
    assert (Hpos : 0 < M1) by (assert (0 < 2 ^ 52) by done; lia).
    exists (Z.to_pos M1), 0. rewrite Z2Pos.id by done.
    split; [lia|]. split; [lia|]. split; [done|].
    rewrite shr_fexp_53 by done. cbn [shr_record_of_loc shr_m].
    destruct M1 as [|p|p]; try lia.
    rewrite Z.add_0_r. destruct (Z.leb_spec e 971); [done | lia].
Qed.

Lemma binary_round_aux_normal (q e r m : Z) (l : location) :
  2 ^ 52 <= q < 2 ^ 54 -> 0 < m -> 0 <= r < m -> locates l r m ->
  -1074 <= e -> e + 2 <= 971 ->
  exists (M : positive) (j : Z),
    binary_round_aux prec emax false q e l = S754_finite false M (e + j) /\
    0 <= j <= 2 /\ Zdigits2 (Zpos M) = 53 /\
    Z.abs (2 * (Zpos M * 2 ^ j) * m - 2 * (q * m + r)) <= 2 ^ j * m.
Proof.
  intros [Hlo Hhi] Hm Hr Hl He1 He2.
  assert (H52 : 0 < 2 ^ 52) by done.
  change (2 ^ 54) with (2 * 2 ^ 53) in Hhi.
  change (2 ^ 53) with (2 * 2 ^ 52) in *.
  unfold binary_round_aux.
  destruct (decide (q < 2 * 2 ^ 52)) as [Hlt|Hge].
  - rewrite shr_fexp_53; [| apply Zdigits2_bounds; [done | lia] | done].
    rewrite shr_record_of_loc_m, loc_of_shr_record_of_loc.
    destruct (round_unshifted q r m l Hm Hr Hl) as [HM1 Hrel].
    destruct (renormalize (round_nearest_even q l) e)
      as (M & j & Hj & HM & Hd & ->); [lia..|].
    exists M, j. split; [done|]. split; [lia|]. split; [done|].
    rewrite HM.
    assert (1 <= 2 ^ j) by (pose proof (Z.pow_pos_nonneg 2 j); lia). nia.
  - rewrite shr_fexp_54; [| | lia]; cycle 1.
    { apply Zdigits2_bounds; [done|].
      change (2 ^ (54 - 1)) with (2 * 2 ^ 52).
      change (2 ^ 54) with (2 * (2 * 2 ^ 52)). lia. }
    destruct (round_shifted q r m l) as (HM1 & HM1' & Hrel); [lia | done..|].
    set (mrs := shr_1 (shr_record_of_loc q l)) in *.
    set (M1 := round_nearest_even (shr_m mrs) (loc_of_shr_record mrs)) in *.
    destruct (renormalize M1 (e + 1))
      as (M & j & Hj & HM & Hd & ->); [lia..|].
    exists M, (1 + j). split; [f_equal; lia|]. split; [lia|]. split; [done|].
    rewrite Z.pow_add_r, Z.pow_1_r by lia.
    assert (1 <= 2 ^ j) by (pose proof (Z.pow_pos_nonneg 2 j); lia).
    replace (2 * (Zpos M * (2 * 2 ^ j)) * m) with (2 * M1 * 2 * m)
      by (rewrite <- HM; ring).
    nia.
Qed.

Lemma SFdiv_core_binary_53 (c1 c2 : positive) (e1 e2 : Z) :
  Zdigits2 (Zpos c1) = 53 -> Zdigits2 (Zpos c2) = 53 ->
  -52 <= e1 <= 1 -> -52 <= e2 <= 1 ->
  SFdiv_core_binary prec emax (Zpos c1) e1 (Zpos c2) e2 =
    (Zpos c1 * 2 ^ 53 / Zpos c2, e1 - e2 - 53,
     new_location (Zpos c2) ((Zpos c1 * 2 ^ 53) mod Zpos c2)).
Proof.
  intros Hc1 Hc2 He1 He2. unfold SFdiv_core_binary. cbv zeta.
  rewrite Hc1, Hc2, fexp_eq.
  replace (Z.min (Z.max (53 + e1 - (53 + e2) - 53) (-1074)) (e1 - e2))
    with (e1 - e2 - 53) by lia.
  replace (e1 - e2 - (e1 - e2 - 53)) with 53 by lia.
  rewrite Z.shiftl_mul_pow2 by done.
  unfold Z.div, Z.modulo. by destruct (Z.div_eucl _ _).
Qed.

Lemma div_canon (c1 c2 : positive) (e1 e2 : Z) :
  Zdigits2 (Zpos c1) = 53 -> Zdigits2 (Zpos c2) = 53 ->
  -52 <= e1 <= 1 -> -52 <= e2 <= 1 ->
  exists (M : positive) (j : Z),
    div (S754_finite false c1 e1) (S754_finite false c2 e2) =
      S754_finite false M (e1 - e2 - 53 + j) /\
    0 <= j <= 2 /\ Zdigits2 (Zpos M) = 53 /\
    Z.abs (2 * (Zpos M * 2 ^ j) * Zpos c2 - 2 * (Zpos c1 * 2 ^ 53))
      <= 2 ^ j * Zpos c2.
Proof.
  intros Hc1 Hc2 He1 He2. unfold div, SFdiv.
  rewrite SFdiv_core_binary_53 by done. cbn [xorb].
  pose proof (Zdigits2_spec (Zpos c1) eq_refl) as [Hlo1 Hhi1].
  pose proof (Zdigits2_spec (Zpos c2) eq_refl) as [Hlo2 Hhi2].
  rewrite Hc1 in Hlo1, Hhi1. rewrite Hc2 in Hlo2, Hhi2.
  change (2 ^ (53 - 1)) with 4503599627370496 in *.
  change (2 ^ 53) with 9007199254740992 in *.
  set (a := Zpos c1 * 9007199254740992).
  pose proof (Z.div_mod a (Zpos c2) ltac:(done)) as Hdm.
  pose proof (Z.mod_pos_bound a (Zpos c2) ltac:(done)) as Hr.
  set (q := a / Zpos c2) in *. set (r := a mod Zpos c2) in *.
  destruct (binary_round_aux_normal q (e1 - e2 - 53) r (Zpos c2)
              (new_location (Zpos c2) r)) as (M & j & -> & Hj & Hd & Hrel).
  - change (2 ^ 52) with 4503599627370496.
    change (2 ^ 54) with 18014398509481984. subst a. nia.
  - done.
  - done.
  - by apply new_location_locates.
  - lia.
  - lia.
  - exists M, j. split; [done|]. split; [done|]. split; [done|].
    rewrite Hdm. replace (Zpos c2 * q + r) with (q * Zpos c2 + r) by ring.
    done.
Qed.

Lemma div_of_Z (s n : Z) :
  0 < s <= 2 ^ 53 -> 0 < n <= 2 ^ 53 ->
  exists (M : positive) (j a : Z),
    div (of_Z s) (of_Z n) = S754_finite false M (j - a) /\
    0 <= j <= 2 /\ 0 <= a <= 106 /\ Zdigits2 (Zpos M) = 53 /\
    Z.abs (2 * (Zpos M * 2 ^ j) * n - 2 * (s * 2 ^ a)) <= 2 ^ j * n.
Proof.
  intros Hs Hn.
  destruct (canon_exists s Hs) as (c1 & e1 & Hcs).
  destruct (canon_exists n Hn) as (c2 & e2 & Hcn).
  rewrite (of_Z_canon _ _ _ Hcs), (of_Z_canon _ _ _ Hcn).
  destruct Hcs as (Hc1 & He1 & Hv1), Hcn as (Hc2 & He2 & Hv2).
  destruct (div_canon c1 c2 e1 e2) as (M & j & -> & Hj & Hd & Hrel); [done..|].
  exists M, j, (53 + e2 - e1).
  split; [f_equal; lia|]. split; [done|]. split; [lia|]. split; [done|].
  set (X := Zpos M * 2 ^ j) in *.
  assert (HJ : 0 < 2 ^ j) by (apply Z.pow_pos_nonneg; lia).
  assert (HB : 0 < 2 ^ (e2 + 52)) by (apply Z.pow_pos_nonneg; lia).
  assert (Hc : Zpos c1 * 2 ^ 53 * 2 ^ (e2 + 52) =
               s * 2 ^ (53 + e2 - e1) * 2 ^ 52).
  { transitivity (Zpos c1 * 2 ^ (e1 + 52) * 2 ^ (53 + e2 - e1)); [|rewrite Hv1; ring].
    rewrite <- !Z.mul_assoc, <- !Z.pow_add_r by lia. do 2 f_equal. lia. }
  assert (HK : 0 < 2 ^ 52) by done.
  revert Hrel Hv2 Hc HK HB HJ.
  generalize (2 ^ (53 + e2 - e1)) (2 ^ (e2 + 52)) (2 ^ 52) (2 ^ j)
    (Zpos c1 * 2 ^ 53) (Zpos c2).
  intros A B2 K J C1 C2 Hrel Hv2 Hc HK HB HJ.
  apply Z.abs_le in Hrel as [Hrel1 Hrel2]. apply Z.abs_le.
  assert (H1 : 0 <= (2 * X * n - 2 * (s * A) + J * n) * K).
  { replace ((2 * X * n - 2 * (s * A) + J * n) * K)
      with ((2 * X * C2 - 2 * C1 + J * C2) * B2).
    - apply Z.mul_nonneg_nonneg; lia.
    - transitivity (2 * X * (C2 * B2) - 2 * (C1 * B2) + J * (C2 * B2));
        [ring|]. rewrite Hv2, Hc. ring. }
  assert (H2 : 0 <= (J * n - (2 * X * n - 2 * (s * A))) * K).
  { replace ((J * n - (2 * X * n - 2 * (s * A))) * K)
      with ((J * C2 - (2 * X * C2 - 2 * C1)) * B2).
    - apply Z.mul_nonneg_nonneg; lia.
    - transitivity (J * (C2 * B2) - (2 * X * (C2 * B2) - 2 * (C1 * B2)));
        [ring|]. rewrite Hv2, Hc. ring. }
  apply Z.mul_nonneg_cancel_r in H1, H2; [|done..]. lia.
Qed.

Lemma quotient_threshold (M j a s n t : Z) :
  2 ^ 52 <= M -> 0 <= j -> 0 <= a -> 0 < s -> 0 < n < 2 ^ 51 -> 2 <= t <= 4 ->
  Z.abs (2 * (M * 2 ^ j) * n - 2 * (s * 2 ^ a)) <= 2 ^ j * n ->
  4 * (M * 2 ^ j) < t * 2 ^ a <-> 4 * s < t * n.
Proof.
  intros HM Hj Ha Hs Hn Ht Hrel.
  change (2 ^ 52) with 4503599627370496 in HM.
  change (2 ^ 51) with 2251799813685248 in Hn.
  assert (HJ : 0 < 2 ^ j) by (by apply Z.pow_pos_nonneg).
  assert (HP : 0 < 2 ^ a) by (by apply Z.pow_pos_nonneg).
  apply Z.abs_le in Hrel as [Hrel1 Hrel2].
  split.
  - intros Hx. destruct (decide (4 * s < t * n)) as [|Hge]; [done|].
    exfalso.
    destruct (decide (j + 2 <= a)) as [Hja|Hja].
    + replace a with (j + 2 + (a - j - 2)) in * by lia.
      rewrite !Z.pow_add_r in * by lia. change (2 ^ 2) with 4 in *.
      assert (HQ : 0 < 2 ^ (a - j - 2)) by (apply Z.pow_pos_nonneg; lia).
      revert Hx Hrel1 Hrel2 HJ HQ. generalize (2 ^ j) (2 ^ (a - j - 2)).
      intros J Q Hx Hrel1 Hrel2 HJ HQ.
      assert (Hlt : M < t * Q) by nia.
      assert (Hle : M + 1 <= t * Q) by lia.
      assert (H1 : 2 * (M + 1) * J * n <= 2 * (t * Q) * J * n).
      { apply Z.mul_le_mono_nonneg_r; [lia|].
        apply Z.mul_le_mono_nonneg_r; lia. }
      assert (H2 : 8 * (t * n) * (J * Q) <= 8 * (4 * s) * (J * Q)).
      { apply Z.mul_le_mono_nonneg_r; [nia | lia]. }
      nia.
    + assert (Hpow : 2 ^ a <= 2 * 2 ^ j).
      { change 2 with (2 ^ 1) at 2. rewrite <- Z.pow_add_r by lia.
        apply Z.pow_le_mono_r; lia. }
      nia.
  - intros Hv. destruct (decide (4 * (M * 2 ^ j) < t * 2 ^ a)) as [|Hge]; [done|].
    exfalso. revert Hrel1 Hrel2 HJ HP Hge. generalize (2 ^ j) (2 ^ a).
    intros J P Hrel1 Hrel2 HJ HP Hge.
    assert (H1 : (4 * s + 1) * P <= t * n * P)
      by (apply Z.mul_le_mono_nonneg_r; lia).
    assert (H2 : t * P * n <= 4 * (M * J) * n)
      by (apply Z.mul_le_mono_nonneg_r; lia).
    assert (H3 : P <= 2 * J * n) by nia.
    assert (H4 : J * n * (2 * M - 1) <= 2 * s * P) by nia.
    assert (H5 : 2 * s * P <= 2 * s * (2 * J * n))
      by (apply Z.mul_le_mono_nonneg_l; lia).
    assert (H6 : J * n * (2 * M - 1) <= J * n * (4 * s)) by nia.
    assert (HJn : 0 < J * n) by (apply Z.mul_pos_pos; lia).
    apply (proj2 (Z.mul_le_mono_pos_l _ _ _ HJn)) in H6.
    assert (t * n <= 4 * n) by (apply Z.mul_le_mono_nonneg_r; lia). lia.
Qed.

Lemma valid_53 (M : positive) (g : Z) :
  Zdigits2 (Zpos M) = 53 -> -1074 <= g <= 971 ->
  valid (S754_finite false M g) = true.
Proof.
  intros Hd Hg. unfold valid, valid_binary, bounded, canonical_mantissa.
  change (Zpos (digits2_pos M)) with (Zdigits2 (Zpos M)).
  rewrite Hd, fexp_eq. change (emax - prec) with 971.
  apply andb_true_iff. split; [apply Z.eqb_eq | apply Z.leb_le]; lia.
Qed.

Lemma ltb_scaled (x y : float) :
  valid x = true -> valid y = true -> is_real x = true -> is_real y = true ->
  ltb x y = true <-> scaled x < scaled y.
Proof.
  intros Hx Hy Rx Ry. unfold ltb, SFltb. rewrite SFcompare_scaled by done.
  rewrite <- Z.compare_lt_iff. by destruct (scaled x ?= scaled y).
Qed.

Lemma ltb_quotient (M : positive) (j a t : Z) (T : float) :
  Zdigits2 (Zpos M) = 53 -> 0 <= j <= 2 -> 0 <= a <= 106 ->
  valid T = true -> is_real T = true -> 4 * scaled T = t * 2 ^ 1074 ->
  ltb (S754_finite false M (j - a)) T = true <->
  4 * (Zpos M * 2 ^ j) < t * 2 ^ a.
Proof.
  intros Hd Hj Ha HT RT Ht.
  rewrite ltb_scaled; [| apply valid_53; [done | lia] | done..].
  cbn [scaled].
  assert (HU : 0 < 2 ^ (1074 - a)) by (apply Z.pow_pos_nonneg; lia).
  replace (j - a + 1074) with (j + (1074 - a)) by lia.
  rewrite Z.pow_add_r by lia.
  assert (HT4 : 4 * scaled T = t * 2 ^ a * 2 ^ (1074 - a)).
  { rewrite Ht, <- Z.mul_assoc, <- Z.pow_add_r by lia. do 2 f_equal. lia. }
  rewrite (Z.mul_lt_mono_pos_r (2 ^ (1074 - a)) (4 * _)) by done.
  revert HT4 HU. generalize (scaled T) (2 ^ j) (2 ^ a) (2 ^ (1074 - a)).
  intros S J P U HT4 HU. lia.
Qed.

Lemma interpret_mae_quotient (s n : Z) :
  0 <= s <= 2 ^ 53 -> 0 < n < 2 ^ 51 ->
  interpret_mae (div (of_Z s) (of_Z n)) = exact_tier s n.
Proof.
  intros Hs Hn. assert (2 ^ 51 < 2 ^ 53) by done.
  destruct (decide (s = 0)) as [->|Hne].
  { destruct (of_Z_finite n) as (m & e & ->).
    - assert (2 ^ 53 < FLOAT_OVERFLOW) by done. lia.
    - unfold exact_tier. by case_decide; [|lia]. }
  destruct (div_of_Z s n) as (M & j & a & -> & Hj & Ha & Hd & Hrel); [lia..|].
  pose proof (Zdigits2_spec (Zpos M) eq_refl) as [HM _]. rewrite Hd in HM.
  change (2 ^ (53 - 1)) with (2 ^ 52) in HM.
  rewrite <- Z.mul_assoc in Hrel.
  assert (Hlt : forall t T, 2 <= t <= 4 ->
    valid T = true -> is_real T = true -> 4 * scaled T = t * 2 ^ 1074 ->
    ltb (S754_finite false M (j - a)) T = true <-> 4 * s < t * n).
  { intros t T Ht HT RT HsT. rewrite (ltb_quotient M j a t) by done.
    apply quotient_threshold; done || lia. }
  assert (Hb : forall t T, 2 <= t <= 4 ->
    valid T = true -> is_real T = true -> 4 * scaled T = t * 2 ^ 1074 ->
    ltb (S754_finite false M (j - a)) T = bool_decide (4 * s < t * n)).
  { intros t T Ht HT RT HsT. specialize (Hlt t T Ht HT RT HsT).
    case_bool_decide; [by apply Hlt|].
    apply not_true_iff_false. by rewrite Hlt. }
  unfold interpret_mae, exact_tier.
  rewrite (Hb 2 lit_0_50), (Hb 3 lit_0_75), (Hb 4 lit_1_00) by (done || lia).
  repeat case_bool_decide; repeat case_decide; done || lia.
Qed.


End Division.

Section SumZero.

Lemma sum_abs_diff_zero (a b : dict) (ks : list string) :
  sum_Z (abs_diff a b <$> ks) = 0 <->
  forall k, k ∈ ks -> score a k = score b k.
Proof.
  induction ks as [|k ks IH].
  - split; [by intros _ k ?%elem_of_nil | done].
  - rewrite fmap_cons, sum_Z_cons.
    pose proof (abs_diff_nonneg a b k).
    pose proof (sum_abs_diff_nonneg a b ks). split.
    + intros Hsum k' [->|Hk']%elem_of_cons.
      * unfold abs_diff in *. lia.
      * apply IH; [lia | done].
    + intros Hall.
      assert (Hk : score a k = score b k) by (apply Hall; by left).
      assert (Hks : sum_Z (abs_diff a b <$> ks) = 0)
        by (apply IH; intros k' Hk'; apply Hall; by right).
      unfold abs_diff in *. lia.
Qed.

End SumZero.

(** X4. With fewer than [2 ^ 51] keys and a sum of differences of at most
    [2 ^ 53], the [interpretation] that [calculate_mae] returns is the tier
    of the exact mean [sum / len]: the rounding of the float division never
    moves the mean across 0.50, 0.75 or 1.00. *)
Theorem calculate_mae_exact_tier (a b : dict) (r : MAEResult) :
  0 < len a < 2 ^ 51 -> sum_abs_diff a b <= 2 ^ 53 ->
  calculate_mae a b = Ok r ->
  interpretation r = exact_tier (sum_abs_diff a b) (len a).
Proof.
  intros Hlen Hsum [_ ->]%calculate_mae_sound. simpl.
  rewrite total_exact by done. unfold mae_of.
  case_decide; [|lia]. apply interpret_mae_quotient; [|done].
  split; [apply sum_abs_diff_nonneg | done].
Qed.

Lemma calculate_mae_exact_tier_witness :
  interpretation (mae_result example_ai example_human) = EXCELLENT.
Proof.
  apply (calculate_mae_exact_tier example_ai example_human).
  - by vm_compute.
  - by vm_compute.
  - by vm_compute.
Defined.

(** X5. With a sum of differences of at most [2 ^ 53], the [mae] that
    [calculate_mae] returns is [0.0] exactly when the two dicts have the
    same score at every key. *)
Theorem calculate_mae_zero (a b : dict) (r : MAEResult) :
  len a <= 2 ^ 53 -> sum_abs_diff a b <= 2 ^ 53 ->
  calculate_mae a b = Ok r ->
  mae r = lit_0_0 <-> forall k, k ∈ keys a -> score a k = score b k.
Proof.
  intros Hlen Hsum [_ ->]%calculate_mae_sound. simpl.
  rewrite total_exact by done. unfold mae_of.
  rewrite <- sum_abs_diff_zero. fold (sum_abs_diff a b).
  pose proof (sum_abs_diff_nonneg a b (keys a)) as Hs.
  fold (sum_abs_diff a b) in Hs.
  case_decide as Hn.
  - destruct (decide (sum_abs_diff a b = 0)) as [->|Hne].
    + split; [done|]. intros _.
      destruct (of_Z_finite (len a)) as (m & e & ->); [|done].
      assert (2 ^ 53 < FLOAT_OVERFLOW) by done. lia.
    + destruct (div_of_Z (sum_abs_diff a b) (len a))
        as (M & j & c & -> & _); [lia..|]. done.
  - split; [|done]. intros _.
    assert (Hnil : keys a = []).
    { unfold len, keys in *. destruct a; [done | simpl in Hn; lia]. }
    unfold sum_abs_diff. by rewrite Hnil.
Qed.

Lemma calculate_mae_zero_witness :
  mae (mae_result example_ai example_ai) = lit_0_0.
Proof.
  apply (proj2 (calculate_mae_zero example_ai example_ai
                  (mae_result example_ai example_ai)
                  ltac:(by vm_compute) ltac:(by vm_compute)
                  ltac:(by vm_compute))).
  done.
Defined.

(** *** Batches and the style class *)

(** X12. [get_mae_color_class] and [interpret_mae] agree on every float,
    NaN and the infinities included: the style class is excellent, good,
    acceptable or poor exactly when the label is the Excellent, Good,
    Acceptable or Poor one. *)
Theorem get_mae_color_class_interpretation (x : float) :
  (get_mae_color_class x = "excellent" <-> interpret_mae x = EXCELLENT) /\
  (get_mae_color_class x = "good" <-> interpret_mae x = GOOD) /\
  (get_mae_color_class x = "acceptable" <-> interpret_mae x = ACCEPTABLE) /\
  (get_mae_color_class x = "poor" <-> interpret_mae x = POOR).
Proof.
  unfold get_mae_color_class, interpret_mae.
  destruct (ltb x lit_0_50); [by repeat split|].
  destruct (ltb x lit_0_75); [by repeat split|].
  destruct (ltb x lit_1_00); by repeat split.
Qed.

Section BatchCore.

Context (py_sum : list float -> float).

Lemma batch_loop_sound (chats : list chat) (acc rs' : list MAEResult) :
  batch_loop chats acc = Ok rs' ->
  exists rs, Forall2 compares_to chats rs /\ rs' = acc ++ rs.
Proof.
  revert acc. induction chats as [|c chats IH]; intros acc; simpl.
  - intros [= <-]. exists []. split; [constructor | by rewrite app_nil_r].
  - destruct (calculate_mae _ _) as [r|] eqn:Hr; [|done]. simpl.
    intros (rs & Hrs & ->)%IH. exists (r :: rs).
    split; [by constructor | by rewrite <- app_assoc].
Qed.

Lemma calculate_batch_mae_sound (chats : list chat) (avg : float)
    (rs : list MAEResult) :
  calculate_batch_mae py_sum chats = Ok (avg, rs) ->
  Forall2 compares_to chats rs /\ avg = batch_average py_sum rs.
Proof.
  unfold calculate_batch_mae.
  destruct (batch_loop chats []) as [rs'|] eqn:Hloop; [|done]. simpl.
  apply batch_loop_sound in Hloop as (rs0 & Hrs & ->). simpl.
  destruct rs0 as [|r rs0].
  - simpl. by intros [= <- <-].
  - destruct (float_truediv_int _ _) as [m|] eqn:Hdiv; [|done]. simpl.
    intros [= <- <-]. split; [done|].
    by apply float_truediv_int_sound in Hdiv.
Qed.

Lemma calculate_batch_mae_error (chats : list chat) (e : exn) :
  calculate_batch_mae py_sum chats = Raise e ->
  e = OverflowError \/
  exists c, c ∈ chats /\ calculate_mae (ai_scores c) (human_scores c) = Raise e.
Proof.
  intros Hraise. destruct (first_failure chats) as [Hall|Hfail].
  - left. apply compares_all in Hall as [rs Hrs].
    unfold calculate_batch_mae in Hraise.
    rewrite (batch_loop_ok _ rs) in Hraise by done. simpl in Hraise.
    destruct rs as [|r rs]; [done|].
    destruct (float_truediv_int _ _) eqn:Hdiv; [done|].
    simpl in Hraise. injection Hraise as <-.
    eapply float_truediv_int_error; [|done]. unfold len. simpl. lia.
  - destruct Hfail as (pre & c & post & e' & -> & Hpre & Hc).
    rewrite (calculate_batch_mae_raise py_sum pre post c e') in Hraise by done.
    injection Hraise as <-. right. exists c. split; [|done].
    apply elem_of_app. right. by left.
Qed.

End BatchCore.

(** X6. Batches compose: when [calculate_batch_mae] returns on two lists
    it returns on their concatenation, with the two result lists
    concatenated. *)
Theorem calculate_batch_mae_app (py_sum : list float -> float)
    (chats1 chats2 : list chat) (avg1 avg2 : float) (rs1 rs2 : list MAEResult) :
  len (chats1 ++ chats2) <= PY_SSIZE_T_MAX ->
  calculate_batch_mae py_sum chats1 = Ok (avg1, rs1) ->
  calculate_batch_mae py_sum chats2 = Ok (avg2, rs2) ->
  exists avg, calculate_batch_mae py_sum (chats1 ++ chats2) = Ok (avg, rs1 ++ rs2).
Proof.
  intros Hlen [H1 _]%calculate_batch_mae_sound [H2 _]%calculate_batch_mae_sound.
  eexists. apply calculate_batch_mae_ok; [|done]. by apply Forall2_app.
Qed.

Lemma calculate_batch_mae_app_witness :
  exists avg rs,
    calculate_batch_mae left_sum ([example_chat] ++ [other_chat]) = Ok (avg, rs) /\
    length rs = 2%nat.
Proof.
  destruct (calculate_batch_mae_app left_sum [example_chat] [other_chat]
              (batch_average left_sum [mae_result example_ai example_human])
              (batch_average left_sum [mae_result other_ai other_human])
              [mae_result example_ai example_human]
              [mae_result other_ai other_human]) as [avg Havg].
  - by vm_compute.
  - by vm_compute.
  - by vm_compute.
  - exists avg. eexists. split; [exact Havg | reflexivity].
Defined.

(** X7. [calculate_batch_mae] never reads [chat_id]: two batches whose
    records carry the same score dicts have the same outcome, whatever
    their identifiers. *)
Theorem calculate_batch_mae_chat_id (py_sum : list float -> float)
    (chats chats' : list chat) :
  Forall2 (fun c c' => ai_scores c = ai_scores c' /\
                       human_scores c = human_scores c') chats chats' ->
  calculate_batch_mae py_sum chats = calculate_batch_mae py_sum chats'.
Proof.
  intros H. unfold calculate_batch_mae.
  assert (Hloop : forall acc, batch_loop chats acc = batch_loop chats' acc).
  { induction H as [|c c' chats chats' [Ha Hh] _ IH]; intros acc; [done|].
    simpl. rewrite Ha, Hh. destruct (calculate_mae _ _); [|done]. apply IH. }
  by rewrite Hloop.
Qed.

Lemma calculate_batch_mae_chat_id_witness :
  calculate_batch_mae left_sum [example_chat; other_chat] =
  calculate_batch_mae left_sum
    [mkChat "" example_ai example_human; mkChat "" other_ai other_human].
Proof.
  apply calculate_batch_mae_chat_id.
  repeat (apply Forall2_cons_2; [by split|]). apply Forall2_nil_2.
Defined.

(** *** The report *)

Section Report.

Context (r : MAEResult) (a b : dict).

Lemma int_format_ok (z : Z) : printable z -> int_format z = Ok (int_str z).
Proof. intros Hz. unfold int_format. by rewrite decide_True. Qed.

Lemma int_format_raise (z : Z) :
  ~ printable z -> int_format z = Raise (ValueError STR_DIGITS_LIMIT).
Proof. intros Hz. unfold int_format. by rewrite decide_False. Qed.

Lemma report_loop_step (k : string) (ks : list string) (out : stdout) :
  reportable r a b k ->
  report_loop r a b (k :: ks) out =
    report_loop r a b ks
      (out ++ [report_line k (score a k) (score b k)
                 (of_Z (score (kpi_differences r) k))]).
Proof.
  intros ((Ha & Hb & d & x & Hd & Hx) & Hpa & Hpb).
  assert (Hs : score (kpi_differences r) k = d)
    by (unfold score; by rewrite Hd).
  assert (Hxd : x = of_Z d)
    by (unfold py_float in Hx; destruct (of_Z d); by simplify_eq).
  cbn [report_loop]. unfold mbind, io_bind, lift.
  rewrite !dict_get_in by done.
  unfold dict_getitem, int_fixed. rewrite Hd.
  rewrite !int_format_ok by done. rewrite Hx, Hs, Hxd. done.
Qed.

Lemma report_loop_ok (ks : list string) (out : stdout) :
  (forall k, k ∈ ks -> reportable r a b k) ->
  report_loop r a b ks out =
    (out ++ ((fun k => report_line k (score a k) (score b k)
                         (of_Z (score (kpi_differences r) k))) <$> ks), Ok tt).
Proof.
  revert out. induction ks as [|k ks IH]; intros out Hks.
  - simpl. by rewrite app_nil_r.
  - rewrite report_loop_step by (apply Hks; by left).
    rewrite IH by (intros k' Hk'; apply Hks; by right).
    by rewrite <- app_assoc.
Qed.

Lemma dict_get_keys (d : dict) (k : string) (v : Z) :
  dict_get d k = Some v -> k ∈ keys d.
Proof.
  unfold keys. induction d as [|[k' v'] d IH]; [done|]. simpl.
  case_decide; [subst; by left | right; by apply IH].
Qed.

Lemma report_loop_head (k : string) (ks : list string) (out : stdout) :
  k ∈ keys a ->
  reportable r a b k \/
  (~ reportable r a b k /\
   exists e, report_loop r a b (k :: ks) out = (out, Raise e) /\
     (e = KeyError k \/ e = OverflowError \/ e = ValueError STR_DIGITS_LIMIT)).
Proof.
  intros Ha. cbn [report_loop]. unfold mbind, io_bind, lift.
  rewrite (dict_get_in a) by done. unfold dict_getitem at 1.
  destruct (dict_get b k) as [v|] eqn:Hv; cycle 1.
  { right. split; [|eauto].
    intros ((_ & Hb & _) & _). apply (dict_get_in b) in Hb.
    unfold dict_getitem in Hb. by rewrite Hv in Hb. }
  assert (Hsb : score b k = v) by (unfold score; by rewrite Hv).
  unfold dict_getitem.
  destruct (dict_get (kpi_differences r) k) as [d|] eqn:Hd; cycle 1.
  { right. split; [|eauto]. intros ((_ & _ & ? & ? & ? & _) & _); congruence. }
  destruct (decide (printable (score a k))) as [Hpa|Hpa]; cycle 1.
  { right. split; [by intros (_ & ? & _)|].
    rewrite int_format_raise by done. eauto. }
  rewrite (int_format_ok (score a k)) by done.
  destruct (decide (printable v)) as [Hpb|Hpb]; cycle 1.
  { right. split; [rewrite <- Hsb in Hpb; by intros (_ & _ & ?)|].
    rewrite int_format_raise by done. eauto. }
  rewrite (int_format_ok v) by done.
  unfold int_fixed. destruct (py_float d) as [x|e] eqn:Hx; simpl.
  - left. split; [|by rewrite Hsb].
    split; [done|]. split; [by eapply dict_get_keys|]. by exists d, x.
  - right. split; [intros ((_ & _ & ? & ? & ? & ?) & _); congruence|].
    exists e. split; [done|]. right. left. by eapply py_float_error.
Qed.

Lemma report_loop_raise (ks : list string) (out : stdout) (e : exn) :
  (forall k, k ∈ ks -> k ∈ keys a) ->
  (report_loop r a b ks out).2 = Raise e ->
  exists k, k ∈ ks /\ ~ reportable r a b k /\
    (e = KeyError k \/ e = OverflowError \/ e = ValueError STR_DIGITS_LIMIT).
Proof.
  revert out. induction ks as [|k ks IH]; intros out Hks; [done|].
  destruct (report_loop_head k ks out) as [Hr|(Hn & e' & -> & He)].
  - apply Hks. by left.
  - rewrite report_loop_step by done.
    intros (k' & Hk' & H)%IH; [|intros k' Hk'; apply Hks; by right].
    exists k'. split; [by right | done].
  - simpl. intros [= <-]. exists k. split; [by left | done].
Qed.

Lemma report_loop_returns (ks : list string) (out : stdout) :
  (forall k, k ∈ ks -> k ∈ keys a) ->
  (report_loop r a b ks out).2 = Ok tt ->
  forall k, k ∈ ks -> reportable r a b k.
Proof.
  revert out. induction ks as [|k ks IH]; intros out Hks Hok k' Hk'.
  { by apply elem_of_nil in Hk'. }
  destruct (report_loop_head k ks out) as [Hr|(Hn & e' & He & _)].
  - apply Hks. by left.
  - rewrite report_loop_step in Hok by done.
    apply elem_of_cons in Hk' as [->|Hk']; [done|].
    eapply IH; [|done..]. intros k'' Hk''. apply Hks. by right.
  - by rewrite He in Hok.
Qed.

Lemma report_loop_head_digits (k : string) (ks : list string) (out : stdout) :
  has_difference r a b k -> ~ reportable r a b k ->
  report_loop r a b (k :: ks) out = (out, Raise (ValueError STR_DIGITS_LIMIT)).
Proof.
  intros Hd Hn. pose proof Hd as (Ha & Hb & d & x & Hdk & Hx).
  cbn [report_loop]. unfold mbind, io_bind, lift.
  rewrite !dict_get_in by done. unfold dict_getitem. rewrite Hdk.
  destruct (decide (printable (score a k))) as [Hpa|Hpa]; cycle 1.
  { by rewrite int_format_raise by done. }
  rewrite (int_format_ok (score a k)) by done.
  destruct (decide (printable (score b k))) as [Hpb|Hpb]; cycle 1.
  { by rewrite int_format_raise by done. }
  by destruct Hn.
Qed.

Lemma report_loop_raise_digits (ks : list string) (out : stdout) (e : exn) :
  (forall k, k ∈ ks -> has_difference r a b k) ->
  (report_loop r a b ks out).2 = Raise e -> e = ValueError STR_DIGITS_LIMIT.
Proof.
  revert out. induction ks as [|k ks IH]; intros out Hks; [done|].
  assert (Hk : has_difference r a b k) by (apply Hks; by left).
  destruct (decide (printable (score a k) /\ printable (score b k)))
    as [Hp|Hp].
  - rewrite report_loop_step by done.
    apply IH. intros k' Hk'. apply Hks. by right.
  - rewrite report_loop_head_digits; [by intros [= <-] | done |].
    by intros [_ ?].
Qed.

Lemma printable_small (z : Z) : Z.abs z < 2 ^ 64 -> printable z.
Proof.
  unfold printable, MAX_STR_DIGITS. intros Hz.
  pose proof (Z.pow_le_mono_r 10 20 4300 ltac:(lia) ltac:(lia)) as Hpow.
  assert (Hlt : 2 ^ 64 < 10 ^ 20) by done.
  revert Hpow Hlt Hz. generalize (10 ^ 4300) (10 ^ 20) (2 ^ 64). lia.
Qed.

End Report.

Section PrintReport.

Context (chat_id : string) (r : MAEResult) (a b : dict).

Lemma print_mae_report_eq (out : stdout) :
  print_mae_report chat_id r a b out =
    match report_loop r a b (keys a) (out ++ report_header chat_id) with
    | (out', Ok _) =>
        if decide (printable (num_kpis r))
        then (out' ++ report_footer r, Ok tt)
        else (out' ++ take 2 (report_footer r),
              Raise (ValueError STR_DIGITS_LIMIT))
    | (out', Raise e) => (out', Raise e)
    end.
Proof.
  unfold print_mae_report, mbind, io_bind, print, lift, report_header,
    report_footer.
  rewrite <- !app_assoc. cbn [app].
  destruct (report_loop _ _ _ _ _) as [out' [[]|e]]; [|done].
  case_decide as Hp.
  - rewrite int_format_ok by done. by rewrite <- !app_assoc.
  - rewrite int_format_raise by done. by rewrite <- !app_assoc.
Qed.

End PrintReport.

(** X8. [print_mae_report] returns normally exactly when every key of
    [ai_scores] is a key of [human_scores] and of [result.kpi_differences]
    with a difference that converts to [float], the two scores of every
    key have at most 4300 digits, and so has [result.num_kpis]. Otherwise
    it raises at a key that fails this — a [KeyError] of that key, an
    [OverflowError], or the [ValueError] of the limit of digits — or at
    [result.num_kpis], with that [ValueError]. *)
Theorem print_mae_report_returns (chat_id : string) (r : MAEResult)
    (a b : dict) (out : stdout) :
  ((print_mae_report chat_id r a b out).2 = Ok tt <->
   (forall k, k ∈ keys a -> reportable r a b k) /\ printable (num_kpis r)) /\
  (forall e, (print_mae_report chat_id r a b out).2 = Raise e ->
     (exists k, k ∈ keys a /\ ~ reportable r a b k /\
        (e = KeyError k \/ e = OverflowError \/
         e = ValueError STR_DIGITS_LIMIT)) \/
     (~ printable (num_kpis r) /\ e = ValueError STR_DIGITS_LIMIT)).
Proof.
  rewrite print_mae_report_eq. split; [split|].
  - intros Hok.
    pose proof (report_loop_returns r a b (keys a)
                  (out ++ report_header chat_id) ltac:(done)) as Hret.
    destruct (report_loop _ _ _ _ _) as [out' [[]|e]]; [|done].
    split; [by apply Hret|]. by case_decide.
  - intros [Hall Hn]. rewrite report_loop_ok by done. by rewrite decide_True.
  - intros e He.
    pose proof (report_loop_raise r a b (keys a)
                  (out ++ report_header chat_id) e ltac:(done)) as Hraise.
    destruct (report_loop _ _ _ _ _) as [out' [[]|e']].
    + right. case_decide; [done|]. simpl in He. by injection He as <-.
    + left. by apply Hraise.
Qed.

(** Two scores of 4401 digits: they differ by 1, [calculate_mae] returns,
    and the report of its result raises at the line of the key. *)
Lemma print_mae_report_returns_witness :
  calculate_mae long_ai long_human = Ok (mae_result long_ai long_human) /\
  exists k, k ∈ keys long_ai /\
    ~ reportable (mae_result long_ai long_human) long_ai long_human k.
Proof.
  split; [by vm_compute|].
  destruct (proj2 (print_mae_report_returns "27811316"
                     (mae_result long_ai long_human) long_ai long_human [])
              (ValueError STR_DIGITS_LIMIT) ltac:(by vm_compute))
    as [(k & Hk & Hn & _)|[Hn _]].
  - by exists k.
  - destruct Hn. by vm_compute.
Defined.

Section Text.

Lemma int_str_nonempty (z : Z) : (1 <= String.length (int_str z))%nat.
Proof.
  unfold int_str, NilZero.string_of_int, NilZero.string_of_uint.
  destruct (Z.to_int z) as [[]|d]; simpl; lia.
Qed.

Lemma fixed_point_0 (c : Z) : fixed_point 0 c = int_str c.
Proof.
  unfold fixed_point. pose proof (int_str_nonempty c).
  by replace (1 - String.length (int_str c))%nat with 0%nat by lia.
Qed.

Lemma float_fixed_of_Z (s : Z) :
  0 <= s <= 2 ^ 53 -> float_fixed 0 (of_Z s) = int_str s.
Proof.
  intros [Hs Hle]. destruct (decide (s = 0)) as [->|Hne]; [done|].
  destruct (canon_exists s) as (c & e & Hc); [lia|].
  rewrite (of_Z_canon _ _ _ Hc). destruct Hc as (_ & He & Hv).
  assert (Hval : (if 0 <=? e then Zpos c * 2 ^ e
                  else round_half_even (Zpos c) (2 ^ (- e))) = s).
  { destruct (Z.leb_spec 0 e) as [Hpos|Hneg].
    - apply (Z.mul_reg_r _ _ (2 ^ 52)); [done|].
      rewrite <- Hv, <- Z.mul_assoc, <- Z.pow_add_r by lia. done.
    - assert (Hd : 0 < 2 ^ (- e)) by (apply Z.pow_pos_nonneg; lia).
      assert (Hcs : Zpos c = s * 2 ^ (- e)).
      { apply (Z.mul_reg_r _ _ (2 ^ (e + 52))).
        { pose proof (Z.pow_pos_nonneg 2 (e + 52)). lia. }
        rewrite Hv, <- Z.mul_assoc, <- Z.pow_add_r by lia.
        do 2 f_equal. lia. }
      unfold round_half_even.
      rewrite Hcs, Z.mod_mul, Z.div_mul by lia.
      by destruct (Z.compare_spec (2 * 0) (2 ^ (- e))); try lia. }
  cbn [float_fixed]. rewrite fixed_point_0.
  change (10 ^ Z.of_nat 0) with 1. rewrite Z.mul_1_r, Hval. done.
Qed.

End Text.

Section ReportOfResult.

Context (a b : dict).

Lemma mae_result_lookup (k : string) :
  NoDup (keys a) -> k ∈ keys a ->
  dict_get (kpi_differences (mae_result a b)) k = Some (abs_diff a b k).
Proof.
  intros Hnd Hk. rewrite mae_result_differences by done.
  by apply dict_get_fmap.
Qed.

Lemma mae_result_has_difference (r : MAEResult) (k : string) :
  NoDup (keys a) -> calculate_mae a b = Ok r -> k ∈ keys a ->
  has_difference r a b k /\ score (kpi_differences r) k = abs_diff a b k.
Proof.
  intros Hnd Hr Hk.
  pose proof (calculate_mae_in_float_range a b r Hr k Hk) as Hlt.
  apply calculate_mae_sound in Hr as [Hkeys ->].
  pose proof (mae_result_lookup k Hnd Hk) as Hd.
  split; [|unfold score; by rewrite Hd].
  split; [done|]. split; [by apply (key_set_eq a b)|].
  exists (abs_diff a b k), (of_Z (abs_diff a b k)). split; [done|].
  apply py_float_ok. split; [apply abs_diff_nonneg | done].
Qed.

End ReportOfResult.

Lemma print_mae_report_ok (chat_id : string) (r : MAEResult) (a b : dict)
    (out : stdout) :
  (forall k, k ∈ keys a -> reportable r a b k) -> printable (num_kpis r) ->
  print_mae_report chat_id r a b out =
    (out ++ report_header chat_id ++
       ((fun k => report_line k (score a k) (score b k)
                    (of_Z (score (kpi_differences r) k))) <$> keys a) ++
       report_footer r,
     Ok tt).
Proof.
  intros Hall Hn. rewrite print_mae_report_eq, report_loop_ok by done.
  rewrite decide_True by done. by rewrite <- !app_assoc.
Qed.

Lemma num_kpis_printable (a b : dict) (r : MAEResult) :
  wf_dict a -> calculate_mae a b = Ok r -> printable (num_kpis r).
Proof.
  intros [_ Hlen] [_ ->]%calculate_mae_sound. apply printable_small.
  simpl. unfold len, PY_SSIZE_T_MAX in *.
  assert (2 ^ 63 < 2 ^ 64) by done. lia.
Qed.

(** X9. On the result of [calculate_mae] and the two dicts it was computed
    from, with scores of at most 4300 digits, [print_mae_report] raises
    nothing and prints the five heading lines, one line per key of
    [ai_scores] in its order, with the two scores and their absolute
    difference, and the six closing lines. With a score of more digits it
    raises the [ValueError] of the limit of digits. *)
Theorem print_mae_report_result (chat_id : string) (a b : dict)
    (r : MAEResult) (out : stdout) :
  wf_dict a -> calculate_mae a b = Ok r ->
  ((forall k, k ∈ keys a -> printable (score a k) /\ printable (score b k)) ->
   print_mae_report chat_id r a b out =
     (out ++ report_header chat_id ++
        ((fun k => report_line k (score a k) (score b k)
                     (of_Z (abs_diff a b k))) <$> keys a) ++
        report_footer r,
      Ok tt)) /\
  (~ (forall k, k ∈ keys a -> printable (score a k) /\ printable (score b k)) ->
   (print_mae_report chat_id r a b out).2 =
     Raise (ValueError STR_DIGITS_LIMIT)).
Proof.
  intros Hwf Hr.
  assert (Hd : forall k, k ∈ keys a ->
    has_difference r a b k /\ score (kpi_differences r) k = abs_diff a b k)
    by (intros k Hk; apply mae_result_has_difference; [apply Hwf | done..]).
  pose proof (num_kpis_printable a b r Hwf Hr) as Hn.
  split.
  - intros Hp. rewrite print_mae_report_ok; [| |done]; cycle 1.
    { intros k Hk. split; [by apply Hd | by apply Hp]. }
    do 4 f_equal.
    apply list_fmap_ext. intros _ k Hk%list_elem_of_lookup_2.
    by destruct (Hd k Hk) as [_ ->].
  - intros Hnp. rewrite print_mae_report_eq.
    pose proof (report_loop_returns r a b (keys a)
                  (out ++ report_header chat_id) ltac:(done)) as Hret.
    pose proof (report_loop_raise_digits r a b (keys a)
                  (out ++ report_header chat_id)) as Hraise.
    destruct (report_loop _ _ _ _ _) as [out' [[]|e]].
    + destruct Hnp. intros k Hk. by destruct (Hret eq_refl k Hk) as (_ & ? & ?).
    + simpl. f_equal. apply Hraise; [|done]. intros k Hk. by apply Hd.
Qed.

Lemma print_mae_report_result_witness :
  exists lines,
    print_mae_report "27811316" (mae_result example_ai example_human)
      example_ai example_human [] = (lines, Ok tt) /\
    length lines = 17%nat.
Proof.
  eexists. split.
  - apply (print_mae_report_result "27811316" example_ai example_human).
    + apply wf_dict_intro; by vm_compute.
    + by vm_compute.
    + intros k Hk. unfold example_ai, keys in Hk. simpl in Hk.
      repeat (apply elem_of_cons in Hk as [->|Hk]);
        [..| by apply elem_of_nil in Hk];
        split; apply printable_small; by vm_compute.
  - reflexivity.
Defined.

(** X10. While the sum of the differences is at most [2 ^ 53], the text
    [format(total_difference, '.0f')] of the report and of the dashboard is
    the decimal of the exact integer sum, and the text of each difference
    is the decimal of [|a[k] - b[k]|]. *)
Theorem total_difference_text (a b : dict) (r : MAEResult) :
  wf_dict a -> sum_abs_diff a b <= 2 ^ 53 -> calculate_mae a b = Ok r ->
  float_fixed 0 (total_difference r) = int_str (sum_abs_diff a b) /\
  (forall k, k ∈ keys a ->
     int_fixed 0 (score (kpi_differences r) k) = Ok (int_str (abs_diff a b k))).
Proof.
  intros [Hnd _] Hsum Hr. split.
  - apply calculate_mae_sound in Hr as [_ ->]. simpl.
    rewrite total_exact, float_fixed_of_Z; [done| |done].
    split; [apply sum_abs_diff_nonneg | done].
  - intros k Hk.
    destruct (mae_result_has_difference a b r k Hnd Hr Hk) as [_ ->].
    pose proof (abs_diff_nonneg a b k).
    pose proof (abs_diff_le_sum a b (keys a) k Hk). unfold sum_abs_diff in Hsum.
    assert (2 ^ 53 < FLOAT_OVERFLOW) by done.
    unfold int_fixed. rewrite py_float_ok by lia. simpl.
    by rewrite float_fixed_of_Z by lia.
Qed.

Lemma total_difference_text_witness :
  float_fixed 0 (total_difference (mae_result example_ai example_human)) = "2".
Proof.
  apply (total_difference_text example_ai example_human).
  - apply wf_dict_intro; by vm_compute.
  - by vm_compute.
  - by vm_compute.
Defined.

(** *** The dashboard *)

Section SingleChat.

Context (ai human : string -> Z).

Lemma slider_scores_eq (slider : string -> Z) :
  slider_scores slider = (fun k => (k, slider k)) <$> KPIS.
Proof. reflexivity. Qed.

Lemma slider_keys (slider : string -> Z) : keys (slider_scores slider) = KPIS.
Proof. reflexivity. Qed.

Lemma slider_score (slider : string -> Z) (k : string) :
  k ∈ KPIS -> score (slider_scores slider) k = slider k.
Proof.
  intros Hk. unfold score. rewrite slider_scores_eq.
  by rewrite dict_get_fmap.
Qed.

Lemma slider_wf (slider : string -> Z) : wf_dict (slider_scores slider).
Proof. apply wf_dict_intro; by vm_compute. Qed.

Lemma slider_key_set :
  key_set (slider_scores ai) = key_set (slider_scores human).
Proof. reflexivity. Qed.

Lemma slider_abs_diff (k : string) :
  k ∈ KPIS ->
  abs_diff (slider_scores ai) (slider_scores human) k = Z.abs (ai k - human k).
Proof. intros Hk. unfold abs_diff. by rewrite !slider_score. Qed.

Lemma breakdown_loop_ok (a b : dict) (r : MAEResult) (ks : list string)
    (df_data : list breakdown_row) :
  (forall k, k ∈ ks ->
     k ∈ keys a /\ k ∈ keys b /\ k ∈ keys (kpi_differences r)) ->
  breakdown_loop a b r ks df_data =
    Ok (df_data ++
        ((fun k => mkBreakdownRow k (score a k) (score b k)
                     (score (kpi_differences r) k)
                     (bool_decide (score (kpi_differences r) k = 0))) <$> ks)).
Proof.
  revert df_data. induction ks as [|k ks IH]; intros df_data Hks.
  - simpl. by rewrite app_nil_r.
  - destruct (Hks k) as (Ha & Hb & Hd); [by left|].
    cbn [breakdown_loop]. rewrite !dict_get_in by done. simpl.
    rewrite IH by (intros k' Hk'; apply Hks; by right).
    by rewrite <- app_assoc.
Qed.

Lemma single_chat_result (r : MAEResult) :
  calculate_mae (slider_scores ai) (slider_scores human) = Ok r ->
  single_chat ai human =
    Ok (mkSingleChatResults (float_fixed 2 (mae r))
          (float_fixed 0 (total_difference r)) (interpretation r)
          (get_mae_color_class (mae r))
          ((fun k => mkBreakdownRow k (ai k) (human k) (Z.abs (ai k - human k))
                       (bool_decide (ai k = human k))) <$> KPIS)).
Proof.
  intros Hr. unfold single_chat. rewrite Hr. unfold mbind at 1, result_bind.
  assert (Hrep : forall k, k ∈ KPIS ->
    has_difference r (slider_scores ai) (slider_scores human) k /\
    score (kpi_differences r) k = Z.abs (ai k - human k)).
  { intros k Hk. rewrite <- slider_abs_diff by done.
    apply mae_result_has_difference; [apply slider_wf | done..]. }
  rewrite breakdown_loop_ok; cycle 1.
  { intros k Hk. destruct (Hrep k Hk) as [(Ha & Hb & d & _ & Hd & _) _].
    split; [done|]. split; [done|]. by eapply dict_get_keys. }
  rewrite app_nil_l. unfold mbind, result_bind. do 2 f_equal.
  apply list_fmap_ext. intros _ k Hk%list_elem_of_lookup_2.
  destruct (Hrep k Hk) as [_ ->]. rewrite !slider_score by done.
  f_equal. apply bool_decide_ext. lia.
Qed.

End SingleChat.

(** X13. The Single Chat mode never breaks the precondition of
    [calculate_mae]: the two dicts it builds from the sliders have the six
    keys of [KPIS], so the only exception it can raise is [OverflowError],
    and with differences in float range it returns a breakdown of six
    rows, one per KPI in the order of [KPIS], each with the two scores,
    their absolute difference and the match mark. *)
Theorem single_chat_returns (ai human : string -> Z) :
  ((forall k, k ∈ KPIS -> Z.abs (ai k - human k) < FLOAT_OVERFLOW) ->
   exists v, single_chat ai human = Ok v /\
     kpi_breakdown v =
       (fun k => mkBreakdownRow k (ai k) (human k) (Z.abs (ai k - human k))
                   (bool_decide (ai k = human k))) <$> KPIS) /\
  (forall e, single_chat ai human = Raise e -> e = OverflowError).
Proof.
  split.
  - intros Hlt. eexists. split.
    + apply single_chat_result, calculate_mae_ok.
      * apply slider_key_set.
      * intros k Hk. rewrite slider_abs_diff by done. by apply Hlt.
      * by vm_compute.
    + done.
  - intros e He.
    destruct (calculate_mae (slider_scores ai) (slider_scores human))
      as [r|e'] eqn:Hr.
    + by rewrite (single_chat_result ai human r Hr) in He.
    + unfold single_chat in He. rewrite Hr in He. injection He as <-.
      apply calculate_mae_error in Hr as [[_ Hne]|[-> _]]; [|done].
      by destruct Hne.
Qed.

Lemma single_chat_returns_witness :
  exists v, single_chat (score example_ai) (score example_human) = Ok v /\
    length (kpi_breakdown v) = 6%nat.
Proof.
  destruct (proj1 (single_chat_returns (score example_ai) (score example_human)))
    as (v & Hv & Hrows).
  - apply Forall_forall.
    repeat (apply Forall_cons_2; [by vm_compute|]). apply Forall_nil_2.
  - exists v. split; [exact Hv|]. by rewrite Hrows.
Defined.

Section Sixths.

Lemma sixths (s : Z) :
  0 <= s <= 30 ->
  interpret_mae (div (of_Z s) (of_Z 6)) = exact_tier s 6 /\
  float_fixed 2 (div (of_Z s) (of_Z 6)) =
    fixed_point 2 (round_half_even (100 * s) 6).
Proof.
  intros Hs.
  assert (Hall : Forall (fun s =>
    interpret_mae (div (of_Z s) (of_Z 6)) = exact_tier s 6 /\
    float_fixed 2 (div (of_Z s) (of_Z 6)) =
      fixed_point 2 (round_half_even (100 * s) 6)) (seqZ 0 31)).
  { apply (bool_decide_unpack _). by vm_compute. }
  rewrite Forall_forall in Hall. apply Hall, elem_of_seqZ. lia.
Qed.

End Sixths.

(** X14. With every slider between 0 and 5, the Single Chat mode shows
    the exact integer sum [s] of the six differences as Total Difference,
    the hundredth nearest to [s / 6] as MAE Score, and the tier of the
    exact mean [s / 6] as interpretation. *)
Theorem single_chat_sliders (ai human : string -> Z) :
  (forall k, k ∈ KPIS -> 0 <= ai k <= 5 /\ 0 <= human k <= 5) ->
  let s := sum_Z ((fun k => Z.abs (ai k - human k)) <$> KPIS) in
  exists v, single_chat ai human = Ok v /\
    total_difference_metric v = int_str s /\
    mae_score v = fixed_point 2 (round_half_even (100 * s) 6) /\
    shown_interpretation v = exact_tier s 6.
Proof.
  intros Hrange s.
  assert (Hk : forall k, k ∈ KPIS -> 0 <= Z.abs (ai k - human k) <= 5)
    by (intros k [??]%Hrange; lia).
  assert (Hsum : sum_abs_diff (slider_scores ai) (slider_scores human) = s).
  { subst s. reflexivity. }
  assert (Hs : 0 <= s <= 30).
  { subst s. unfold KPIS in *. rewrite !fmap_cons, !sum_Z_cons.
    repeat match goal with
    | |- context [Z.abs (ai ?k - human ?k)] =>
        let H := fresh in
        assert (H : 0 <= Z.abs (ai k - human k) <= 5)
          by (apply Hk; repeat first [by left | right]);
        generalize dependent (Z.abs (ai k - human k)); intros
    end.
    simpl. lia. }
  assert (Hr : calculate_mae (slider_scores ai) (slider_scores human) =
               Ok (mae_result (slider_scores ai) (slider_scores human))).
  { apply calculate_mae_ok; [apply slider_key_set | | by vm_compute].
    apply exact_in_float_range. rewrite Hsum.
    assert (30 <= 2 ^ 53) by done. lia. }
  eexists. split; [by apply single_chat_result|].
  cbn [total_difference_metric mae_score shown_interpretation mae_result mae
       total_difference interpretation].
  rewrite total_exact by (rewrite Hsum; assert (30 <= 2 ^ 53) by done; lia).
  rewrite Hsum.
  change (mae_of (of_Z s) (len (slider_scores ai))) with (div (of_Z s) (of_Z 6)).
  destruct (sixths s Hs) as [Ht Hf].
  split; [apply float_fixed_of_Z; assert (30 <= 2 ^ 53) by done; lia|].
  done.
Qed.

Lemma single_chat_sliders_witness :
  exists v, single_chat (score example_ai) (score example_human) = Ok v /\
    total_difference_metric v = "2" /\ mae_score v = "0.33" /\
    shown_interpretation v = EXCELLENT.
Proof.
  apply (single_chat_sliders (score example_ai) (score example_human)).
  apply Forall_forall.
  repeat (apply Forall_cons_2; [by vm_compute|]). apply Forall_nil_2.
Defined.

Section BatchUploadFacts.

Context (py_sum : list float -> float).

Lemma row_chat_keys (row : csv_row) :
  wf_dict (ai_scores (row_chat row)) /\
  key_set (ai_scores (row_chat row)) = key_set (human_scores (row_chat row)).
Proof. split; [apply wf_dict_intro; by vm_compute | reflexivity]. Qed.

Lemma row_chat_abs_diff (row : csv_row) (k : string) :
  k ∈ KPIS ->
  abs_diff (ai_scores (row_chat row)) (human_scores (row_chat row)) k =
    Z.abs (row_int row ("ai_" +:+ k) - row_int row ("human_" +:+ k)).
Proof.
  intros Hk. unfold KPIS in Hk.
  repeat (apply elem_of_cons in Hk as [->|Hk]); try reflexivity.
  by apply elem_of_nil in Hk.
Qed.

Lemma row_chat_comparable (row : csv_row) :
  (forall col, - 2 ^ 63 <= row_int row col < 2 ^ 63) -> comparable (row_chat row).
Proof.
  intros Hrow. destruct (row_chat_keys row) as [Hwf Hkeys].
  split; [done|]. split; [done|].
  intros k Hk. rewrite row_chat_abs_diff by done.
  pose proof (Hrow ("ai_" +:+ k)). pose proof (Hrow ("human_" +:+ k)).
  assert (2 ^ 65 < FLOAT_OVERFLOW) by done.
  change (2 ^ 63) with 9223372036854775808 in *.
  change (2 ^ 65) with 36893488147419103232 in *. lia.
Qed.

Lemma batch_upload_result (df : list csv_row) (avg : float)
    (rs : list MAEResult) :
  calculate_batch_mae py_sum (row_chat <$> df) = Ok (avg, rs) ->
  exists v, batch_upload py_sum df = Ok v /\ total_chats v = len df /\
    average_interpretation v = interpret_mae avg /\
    results_chat_id <$> results_data v = row_chat_id <$> df /\
    results_interpretation <$> results_data v = interpretation <$> rs.
Proof.
  intros Hb. unfold batch_upload. rewrite Hb. eexists. split; [done|].
  apply calculate_batch_mae_sound in Hb as [Hrs _].
  pose proof (Forall2_length _ _ _ Hrs) as Hlen.
  cbn [total_chats average_interpretation results_data].
  split; [unfold len; by rewrite length_fmap|]. split; [done|].
  rewrite <- !list_fmap_compose.
  split.
  - change (results_chat_id ∘ _) with (chat_id ∘ (fst : chat * MAEResult -> chat)).
    rewrite list_fmap_compose, fst_zip by lia.
    rewrite <- list_fmap_compose. done.
  - change (results_interpretation ∘ _)
      with (interpretation ∘ (snd : chat * MAEResult -> MAEResult)).
    by rewrite list_fmap_compose, snd_zip by lia.
Qed.

End BatchUploadFacts.

(** X15. The Batch Upload mode never breaks the precondition of
    [calculate_batch_mae]: every record it builds has the six KPIs in both
    dicts, so the only exception it can raise is [OverflowError]; with
    every score in the 64-bit range it returns, counts one chat per row
    and lists the chat ids of the rows in their order. *)
Theorem batch_upload_returns (py_sum : list float -> float) (df : list csv_row) :
  (len df <= PY_SSIZE_T_MAX ->
   (forall row col, row ∈ df -> - 2 ^ 63 <= row_int row col < 2 ^ 63) ->
   exists v, batch_upload py_sum df = Ok v /\ total_chats v = len df /\
     results_chat_id <$> results_data v = row_chat_id <$> df) /\
  (forall e, batch_upload py_sum df = Raise e -> e = OverflowError).
Proof.
  split.
  - intros Hlen Hrows.
    assert (Hall : Forall comparable (row_chat <$> df)).
    { apply Forall_fmap, Forall_forall. intros row Hrow.
      apply row_chat_comparable. intros col. by apply Hrows. }
    destruct (compares_all (row_chat <$> df)) as [rs Hrs].
    { eapply Forall_impl; [done|]. apply comparable_compares. }
    destruct (batch_upload_result py_sum df (batch_average py_sum rs) rs)
      as (v & Hv & Hn & _ & Hids & _).
    { apply calculate_batch_mae_ok; [done|].
      unfold len in *. by rewrite length_fmap. }
    by exists v.
  - intros e He. unfold batch_upload in He.
    destruct (calculate_batch_mae py_sum (row_chat <$> df))
      as [[avg rs]|e'] eqn:Hb; [done|].
    injection He as <-.
    apply calculate_batch_mae_error in Hb as [->|(c & Hc & Hraise)]; [done|].
    apply list_elem_of_fmap in Hc as (row & -> & _).
    apply calculate_mae_error in Hraise as [[_ Hne]|[-> _]]; [|done].
    destruct Hne. apply row_chat_keys.
Qed.

Lemma batch_upload_returns_witness :
  exists v,
    batch_upload left_sum [mkCsvRow "27811316" (fun _ => 3)] = Ok v /\
    total_chats v = 1.
Proof.
  destruct (proj1 (batch_upload_returns left_sum
                     [mkCsvRow "27811316" (fun _ => 3)]))
    as (v & Hv & Hn & _).
  - by vm_compute.
  - intros row col ->%list_elem_of_singleton. simpl. lia.
  - by exists v.
Defined.

(** *** The width of the table *)

Section Digits10.

Import Decimal.

Lemma double_digits (d : uint) :
  (nb_digits (Little.double d) = nb_digits d \/
   (nb_digits (Little.double d) = S (nb_digits d) /\
    10 ^ N.of_nat (nb_digits d) <= Unsigned.of_lu (Little.double d))%N) /\
  (nb_digits (Little.succ_double d) = nb_digits d \/
   (nb_digits (Little.succ_double d) = S (nb_digits d) /\
    10 ^ N.of_nat (nb_digits d) <= Unsigned.of_lu (Little.succ_double d))%N).
Proof.
  induction d as [|d IH|d IH|d IH|d IH|d IH|d IH|d IH|d IH|d IH|d IH];
    [split; [by left | right; split; [done | by vm_compute]]|..];
    destruct IH as [[H1|[H1 H1']] [H2|[H2 H2']]];
    cbn [Little.double Little.succ_double nb_digits];
    rewrite ?H1, ?H2;
    (split;
       [first [by left | right; split; [done|]]
       |first [by left | right; split; [done|]]]);
    rewrite Unsigned.of_lu_eqn; cbn [Unsigned.hd Unsigned.tl];
    rewrite Nat2N.inj_succ, N.pow_succ_r'; lia.
Qed.

Lemma to_little_uint_digits (p : positive) :
  (1 <= nb_digits (Pos.to_little_uint p))%nat /\
  Unsigned.of_lu (Pos.to_little_uint p) = Npos p /\
  (10 ^ N.of_nat (pred (nb_digits (Pos.to_little_uint p))) <= Npos p)%N.
Proof.
  induction p as [p (Hn & Hv & Hlo)|p (Hn & Hv & Hlo)|]; cbn [Pos.to_little_uint].
  - destruct (double_digits (Pos.to_little_uint p)) as [_ [H|[H H']]];
      rewrite Unsigned.of_lu_succ_double, Hv in *; rewrite H.
    + split; [done|]. split; [done|]. simpl N.succ_double. lia.
    + split; [lia|]. split; [done|]. done.
  - destruct (double_digits (Pos.to_little_uint p)) as [[H|[H H']] _];
      rewrite Unsigned.of_lu_double, Hv in *; rewrite H.
    + split; [done|]. split; [done|]. simpl N.double. lia.
    + split; [lia|]. split; [done|]. done.
  - by vm_compute.
Qed.

Lemma length_string_of_uint (d : uint) :
  String.length (NilEmpty.string_of_uint d) = nb_digits d.
Proof. induction d; simpl; congruence. Qed.

End Digits10.


Lemma length_int_str (z : Z) (n : nat) :
  (1 <= n)%nat -> 0 <= z < 10 ^ Z.of_nat n ->
  (String.length (int_str z) <= n)%nat.
Proof.
  intros Hn [Hz Hlt]. destruct z as [|p|p]; [done| |lia].
  unfold int_str, NilZero.string_of_int, NilZero.string_of_uint, Z.to_int.
  pose proof (Unsigned.to_uint_nonnil p) as Hnil.
  destruct (Pos.to_uint p) eqn:Hd; [done|..]; rewrite <- Hd;
    rewrite length_string_of_uint; unfold Pos.to_uint;
    rewrite nb_digits_rev;
    destruct (to_little_uint_digits p) as (H1 & _ & Hlo);
    apply N2Z.inj_le in Hlo; rewrite N2Z.inj_pow, nat_N_Z in Hlo;
    change (Z.of_N 10) with 10 in Hlo;
    change (Z.of_N (Npos p)) with (Zpos p) in Hlo;
    (cut (Z.of_nat (Init.Nat.pred (Decimal.nb_digits (Pos.to_little_uint p)))
          < Z.of_nat n)%Z; [lia|]);
    apply (Z.pow_lt_mono_r_iff 10); lia.
Qed.

Section Width.

Lemma length_append (s t : string) :
  String.length (s +:+ t) = (String.length s + String.length t)%nat.
Proof. induction s as [|c s IH]; simpl; [done | by rewrite IH]. Qed.

Lemma length_str_mul (n : nat) : String.length (str_mul " " n) = n.
Proof.
  induction n as [|n IH]; [done|].
  cbn [str_mul]. rewrite length_append, IH. done.
Qed.

Lemma length_ljust (w : nat) (s : string) :
  (String.length s <= w)%nat -> String.length (ljust w s) = w.
Proof. intros Hs. unfold ljust. rewrite length_append, length_str_mul. lia. Qed.

Lemma length_rjust (w : nat) (s : string) :
  (String.length s <= w)%nat -> String.length (rjust w s) = w.
Proof. intros Hs. unfold rjust. rewrite length_append, length_str_mul. lia. Qed.

Lemma length_report_line (k : string) (ai human diff : Z) :
  (String.length k <= 25)%nat ->
  0 <= ai < 100000 -> 0 <= human < 100000 -> 0 <= diff < 100000 ->
  String.length (report_line k ai human (of_Z diff)) = 48%nat.
Proof.
  intros Hk Ha Hh Hd. unfold report_line.
  assert (100000 <= 2 ^ 53) by done.
  rewrite float_fixed_of_Z by lia.
  pose proof (length_int_str ai 5). pose proof (length_int_str human 5).
  pose proof (length_int_str diff 5).
  change (10 ^ Z.of_nat 5) with 100000 in *.
  rewrite !length_append, length_ljust, !length_rjust by lia. done.
Qed.

End Width.

(** X11. The table of [print_mae_report] is aligned: with keys of at most
    25 characters and scores from 0 to 99999, every line of the table is 48
    characters wide, as the line of the column titles is. *)
Theorem print_mae_report_aligned (chat_id : string) (a b : dict)
    (r : MAEResult) :
  wf_dict a -> calculate_mae a b = Ok r ->
  (forall k, k ∈ keys a ->
     (String.length k <= 25)%nat /\
     0 <= score a k < 100000 /\ 0 <= score b k < 100000) ->
  exists lines, print_mae_report chat_id r a b [] = (lines, Ok tt) /\
    (exists title, lines !! 3%nat = Some (LF +:+ title) /\
       String.length title = 48%nat) /\
    (forall i, (5 <= i < 5 + length a)%nat ->
       exists line, lines !! i = Some line /\ String.length line = 48%nat).
Proof.
  intros Hwf Hr Hrange.
  assert (Hrep : forall k, k ∈ keys a ->
    has_difference r a b k /\ score (kpi_differences r) k = abs_diff a b k)
    by (intros k Hk; apply mae_result_has_difference; [apply Hwf | done..]).
  assert (Hsmall : forall z, 0 <= z < 100000 -> printable z).
  { intros z Hz. apply printable_small.
    assert (100000 < 2 ^ 64) by done. lia. }
  eexists. split.
  { apply print_mae_report_ok; [|by eapply num_kpis_printable].
    intros k Hk. destruct (Hrange k Hk) as (_ & Ha & Hb).
    split; [by apply Hrep|]. split; by apply Hsmall. }
  split; [by eexists|].
  intros i Hi. cbn [app report_header].
  destruct i as [|[|[|[|[|i]]]]]; [lia..|].
  change (exists line,
    (((fun k => report_line k (score a k) (score b k)
                  (of_Z (score (kpi_differences r) k))) <$> keys a) ++
     report_footer r) !! i = Some line /\
    String.length line = 48%nat).
  destruct (lookup_lt_is_Some_2 (keys a) i) as [k Hk].
  { unfold keys. rewrite length_fmap. lia. }
  rewrite lookup_app_l by (rewrite length_fmap; by eapply lookup_lt_Some).
  rewrite list_lookup_fmap, Hk. eexists. split; [done|].
  apply list_elem_of_lookup_2 in Hk.
  destruct (Hrange k Hk) as (Hlen & Ha & Hb).
  destruct (Hrep k Hk) as [_ ->].
  apply length_report_line; [done..|]. unfold abs_diff. lia.
Qed.

Lemma print_mae_report_aligned_witness :
  exists lines,
    print_mae_report "27811316" (mae_result example_ai example_human)
      example_ai example_human [] = (lines, Ok tt) /\
    exists line, lines !! 5%nat = Some line /\ String.length line = 48%nat.
Proof.
  destruct (print_mae_report_aligned "27811316" example_ai example_human
              (mae_result example_ai example_human))
    as (lines & Hlines & _ & Hrows).
  - apply wf_dict_intro; by vm_compute.
  - by vm_compute.
  - apply Forall_forall. cbv [keys example_ai fmap list_fmap fst].
    repeat (apply Forall_cons_2; [split; [simpl; lia | by vm_compute]|]).
    apply Forall_nil_2.
  - exists lines. split; [exact Hlines|]. apply Hrows. simpl. lia.
Defined.
